(** * CareerMate: intent detection, response catalogue and chunked translation

    A shallow embedding of [app.py]: the keyword classifier
    [detect_intent_multilingual], the canned responses of [get_ai_response],
    [generate_smart_suggestions], the chunking translator
    [translate_text_smart] with its HTTP collaborator, and the [/api/chat]
    handler.  Python strings are sequences of Unicode code points; effects
    (the translation request, the [chats] table, the clock) are threaded
    through an explicit world.  The [print] calls are left out, and text is
    taken to be well formed (no lone surrogate), so that neither they nor
    [urllib.parse.quote] raise. *)

From Stdlib Require Import List NArith Arith Bool String Ascii Lia.
Import ListNotations.

Local Open Scope list_scope.

(** ** Python strings *)

Module PyStr.

(** A [str] is the list of its code points, so that [List.length] is Python's
    [len]. *)
Definition str := list N.

Fixpoint str_eqb (a b : str) : bool :=
  match a, b with
  | [], [] => true
  | x :: a', y :: b' => N.eqb x y && str_eqb a' b'
  | _, _ => false
  end.

(** The literals of the source file are UTF-8 text; [utf8] reads one into
    its code points. [need] counts the continuation bytes still expected. *)
Fixpoint utf8_decode (bs : list N) (need : nat) (acc : N) : str :=
  match bs with
  | [] => []
  | b :: rest =>
      match need with
      | S n =>
          let acc' := (acc * 64 + b mod 64)%N in
          match n with
          | O => acc' :: utf8_decode rest 0 0%N
          | S _ => utf8_decode rest n acc'
          end
      | O =>
          if (b <? 128)%N then b :: utf8_decode rest 0 0%N
          else if (b <? 224)%N then utf8_decode rest 1 (b mod 32)%N
          else if (b <? 240)%N then utf8_decode rest 2 (b mod 16)%N
          else utf8_decode rest 3 (b mod 8)%N
      end
  end.

Definition utf8 (s : string) : str :=
  utf8_decode (map N_of_ascii (list_ascii_of_string s)) 0 0%N.

Definition quoted (s : str) : str := 34%N :: s ++ [34%N].

(** [sep.join(items)] *)
Fixpoint join (sep : str) (items : list str) : str :=
  match items with
  | [] => []
  | [x] => x
  | x :: rest => x ++ sep ++ join sep rest
  end.

Definition newline : N := 10.
Definition lines (ls : list str) : str := join [newline] ls.

(** [str.isspace] on one code point: the characters [str.strip] and
    [str.split] without arguments treat as whitespace. *)
Definition isspace (c : N) : bool :=
  ((9 <=? c) && (c <=? 13) || (28 <=? c) && (c <=? 32)
   || (c =? 133) || (c =? 160) || (c =? 5760)
   || (8192 <=? c) && (c <=? 8202)
   || (c =? 8232) || (c =? 8233) || (c =? 8239) || (c =? 8287)
   || (c =? 12288))%N.

Fixpoint lstrip (s : str) : str :=
  match s with
  | [] => []
  | c :: rest => if isspace c then lstrip rest else s
  end.

Definition rstrip (s : str) : str := rev (lstrip (rev s)).

(** [s.strip()] *)
Definition strip (s : str) : str := rstrip (lstrip s).

(** Truth value of a string: non-empty. *)
Definition truthy (s : str) : bool :=
  match s with [] => false | _ :: _ => true end.

(** [s.startswith(p)] *)
Fixpoint startswith (p s : str) : bool :=
  match p, s with
  | [], _ => true
  | _ :: _, [] => false
  | x :: p', y :: s' => N.eqb x y && startswith p' s'
  end.

(** [w in s]: substring containment. *)
Fixpoint contains (w s : str) : bool :=
  startswith w s ||
  match s with
  | [] => false
  | _ :: rest => contains w rest
  end.

(** [s.split(sep)] for a non-empty separator: occurrences are found from
    the left and do not overlap. [skip] is the number of characters of the
    separator just matched that are still to be passed over. *)
Fixpoint split_from (sep s : str) (skip : nat) : list str :=
  match s with
  | [] => [[]]
  | c :: rest =>
      match skip with
      | S k => split_from sep rest k
      | O =>
          if startswith sep s
          then [] :: split_from sep rest (List.length sep - 1)
          else match split_from sep rest 0 with
               | piece :: pieces => (c :: piece) :: pieces
               | [] => [[c]]
               end
      end
  end.

Definition split (sep s : str) : list str := split_from sep s 0.

(** [s.replace(old, new)] for a non-empty [old]. *)
Fixpoint replace_from (old new s : str) (skip : nat) : str :=
  match s with
  | [] => []
  | c :: rest =>
      match skip with
      | S k => replace_from old new rest k
      | O =>
          if startswith old s
          then new ++ replace_from old new rest (List.length old - 1)
          else c :: replace_from old new rest 0
      end
  end.

Definition replace (old new s : str) : str := replace_from old new s 0.

(** [s.split()]: the maximal runs of non-whitespace characters. [word] is
    the run being read, if any. *)
Fixpoint split_words (s : str) (word : option str) : list str :=
  match s with
  | [] => match word with Some w => [w] | None => [] end
  | c :: rest =>
      if isspace c
      then match word with
           | Some w => w :: split_words rest None
           | None => split_words rest None
           end
      else match word with
           | Some w => split_words rest (Some (w ++ [c]))
           | None => split_words rest (Some [c])
           end
  end.

Definition split_whitespace (s : str) : list str := split_words s None.

(** A lower-casing that moves [A]-[Z] to [a]-[z] and leaves every other code
    point alone. It agrees with [str.lower] on text made of ASCII and of
    caseless scripts (Devanagari, Gurmukhi, Kannada), which is all the
    keyword tables contain. *)
Definition ascii_lower_char (c : N) : N :=
  if ((65 <=? c) && (c <=? 90))%N then (c + 32)%N else c.

Definition ascii_lower (s : str) : str := map ascii_lower_char s.

End PyStr.
Export PyStr.

(** ** Intent detection *)

Module Intent.

(** The seven values [detect_intent_multilingual] can return. *)
Inductive intent : Type :=
  | Greeting | Salary | Skills | Interview | Job | Resume | Default.

Definition intent_eqb (a b : intent) : bool :=
  match a, b with
  | Greeting, Greeting | Salary, Salary | Skills, Skills
  | Interview, Interview | Job, Job | Resume, Resume
  | Default, Default => true
  | _, _ => false
  end.

Definition greeting_words : list str := Eval vm_compute in
  [ utf8 "hi"; utf8 "hello"; utf8 "hey"; utf8 "start";
    utf8 "namaste"; utf8 "namaskar"; utf8 "hola"; utf8 "bonjour";
    utf8 "नमस्ते"; utf8 "नमस्कार"; utf8 "ਸਤ ਸ੍ਰੀ ਅਕਾਲ"; utf8 "ਨਮਸਕਾਰ";
    utf8 "ನಮಸ್ಕಾರ"; utf8 "ನಮಸ್ತೆ"; utf8 "vanakkam"; utf8 "adaab" ].

Definition salary_words : list str := Eval vm_compute in
  [ utf8 "salary"; utf8 "pay"; utf8 "compensation"; utf8 "money";
    utf8 "earning"; utf8 "income"; utf8 "wage"; utf8 "वेतन";
    utf8 "तनख्वाह"; utf8 "पैसा"; utf8 "कमाई"; utf8 "ਤਨਖਾਹ";
    utf8 "ਪੈਸਾ"; utf8 "ਕਮਾਈ"; utf8 "ಸಂಬಳ"; utf8 "ದುಡ್ಡು";
    utf8 "ಕಮಾಯಿ"; utf8 "पगार"; utf8 "रुपया" ].

Definition skills_words : list str := Eval vm_compute in
  [ utf8 "skills"; utf8 "learn"; utf8 "study"; utf8 "course";
    utf8 "training"; utf8 "education"; utf8 "skill"; utf8 "कौशल";
    utf8 "सीखना"; utf8 "अध्ययन"; utf8 "पढ़ना"; utf8 "ਸਿੱਖਣਾ";
    utf8 "ਹੁਨਰ"; utf8 "ਸਿੱਖਿਆ"; utf8 "ಕೌಶಲ್ಯ"; utf8 "ಕಲಿಕೆ";
    utf8 "ಅಧ್ಯಯನ"; utf8 "शिकणे"; utf8 "कौशल्य" ].

Definition interview_words : list str := Eval vm_compute in
  [ utf8 "interview"; utf8 "preparation"; utf8 "questions"; utf8 "tips";
    utf8 "prep"; utf8 "question"; utf8 "साक्षात्कार"; utf8 "इंटरव्यू";
    utf8 "प्रश्न"; utf8 "ਇੰਟਰਵਿਊ"; utf8 "ਸਵਾਲ"; utf8 "ಸಂದರ್ಶನ";
    utf8 "ಪ್ರಶ್ನೆ"; utf8 "मुलाखत" ].

Definition job_words : list str := Eval vm_compute in
  [ utf8 "job"; utf8 "career"; utf8 "work"; utf8 "employment";
    utf8 "position"; utf8 "role"; utf8 "jobs"; utf8 "नौकरी";
    utf8 "काम"; utf8 "कैरियर"; utf8 "रोजगार"; utf8 "ਨੌਕਰੀ";
    utf8 "ਕੰਮ"; utf8 "ਕਰੀਅਰ"; utf8 "ಕೆಲಸ"; utf8 "ನೌಕರಿ";
    utf8 "ಕ್ಯಾರಿಯರ್"; utf8 "काम"; utf8 "नोकरी" ].

Definition resume_words : list str := Eval vm_compute in
  [ utf8 "resume"; utf8 "cv"; utf8 "biodata"; utf8 "profile";
    utf8 "bio"; utf8 "बायोडाटा"; utf8 "रिज्यूमे"; utf8 "ਬਾਇਓਡਾਟਾ";
    utf8 "ರೆಸ್ಯೂಮೆ"; utf8 "ಬಯೋಡಾಟಾ" ].

(** [any(word in message_lower for word in words)] *)
Definition any_in (words : list str) (message_lower : str) : bool :=
  existsb (fun word => contains word message_lower) words.

Section Detect.

(** [str.lower]. Python takes it from the Unicode character database, which
    is no part of the program; the development is parametric in it. *)
Variable lower : str -> str.

Definition detect_intent_multilingual (user_message : str) : intent :=
  let message_lower := lower user_message in
  if any_in greeting_words message_lower then Greeting
  else if any_in salary_words message_lower then Salary
  else if any_in skills_words message_lower then Skills
  else if any_in interview_words message_lower then Interview
  else if any_in job_words message_lower then Job
  else if any_in resume_words message_lower then Resume
  else Default.

(** The classifier as the specification words it: a rule table in priority
    order, searched for the first intent one of whose keywords occurs in the
    lower-cased message. *)
Definition priority_order : list (intent * list str) :=
  [ (Greeting, greeting_words); (Salary, salary_words);
    (Skills, skills_words); (Interview, interview_words);
    (Job, job_words); (Resume, resume_words) ].

Definition classify (message : str) : intent :=
  match find (fun rule => any_in (snd rule) (lower message)) priority_order with
  | Some rule => fst rule
  | None => Default
  end.

End Detect.

End Intent.
Export Intent.

(** ** The response catalogue *)

Module Catalog.

Definition greeting_response : str := Eval vm_compute in lines
  [ utf8 "👋 **Hello! I'm CareerMate!**";
    [];
    utf8 "I help with:";
    utf8 "• Job search & salaries";
    utf8 "• Tech skills & learning";
    utf8 "• Interview preparation";
    utf8 "• Resume optimization";
    [];
    utf8 "Ask me about salaries, skills, or jobs!";
    [];
    utf8 "What can I help you with?" ].

Definition salary_response : str := Eval vm_compute in lines
  [ utf8 "💰 **Tech Salaries 2024-2025**";
    [];
    utf8 "**Software Engineer:**";
    utf8 "Entry: $75k-$120k | Mid: $110k-$180k | Senior: $160k-$350k";
    [];
    utf8 "**AI/ML Engineer:**";
    utf8 "Entry: $95k-$130k | Mid: $140k-$200k | Senior: $200k-$400k";
    [];
    utf8 "**Data Scientist:**";
    utf8 "Entry: $85k-$120k | Mid: $120k-$180k | Senior: $180k-$300k";
    [];
    utf8 "**Location boost:** SF +35%, NYC +25%, Remote -15%";
    [];
    utf8 "Get multiple offers and negotiate!" ].

Definition skills_response : str := Eval vm_compute in lines
  [ utf8 "🎓 **Hottest Tech Skills 2024-2025**";
    [];
    utf8 "**Programming:** Python (AI/ML) • JavaScript (Web) • SQL (Essential)";
    [];
    utf8 "**AI/ML:** ChatGPT integration • PyTorch • Vector databases";
    [];
    utf8 "**Cloud:** AWS • Docker • Kubernetes";
    [];
    utf8 "**Learning plan:** Pick Python → Choose AI/Web/Cloud → Build 3 projects";
    [];
    utf8 "**Free resources:** freeCodeCamp.org, Fast.ai, AWS Educate";
    [];
    utf8 "Which area interests you?" ].

Definition interview_response : str := Eval vm_compute in lines
  [ utf8 "🎤 **Interview Prep Essentials**";
    [];
    utf8 "**Top 3 questions:**";
    utf8 "1. " ++ quoted (utf8 "Tell me about yourself") ++ utf8 " → Present + Impact + Future";
    utf8 "2. " ++ quoted (utf8 "Why this job?") ++ utf8 " → Research company + Show excitement  ";
    utf8 "3. " ++ quoted (utf8 "Biggest weakness?") ++ utf8 " → Real weakness + Improvement + Results";
    [];
    utf8 "**Technical prep:** LeetCode Easy (50) → Medium (100)";
    [];
    utf8 "**Tips:** Apply Mon-Wed, research interviewer, prepare 5 questions";
    [];
    utf8 "Need company-specific help?" ].

Definition job_response : str := Eval vm_compute in lines
  [ utf8 "🔍 **Job Search Links**";
    [];
    utf8 "**AI/ML Jobs:**";
    utf8 "[AI Engineer Jobs](https://linkedin.com/jobs/search/?keywords=AI%20engineer)";
    utf8 "[Data Scientist Jobs](https://linkedin.com/jobs/search/?keywords=data%20scientist)";
    [];
    utf8 "**Software Jobs:**";
    utf8 "[Software Engineer Jobs](https://linkedin.com/jobs/search/?keywords=software%20engineer)";
    utf8 "[Full Stack Developer Jobs](https://linkedin.com/jobs/search/?keywords=full%20stack%20developer)";
    [];
    utf8 "**Remote Jobs:**";
    utf8 "[Remote Software Jobs](https://linkedin.com/jobs/search/?keywords=software%20engineer&location=Remote)";
    [];
    utf8 "Apply within 24hrs, follow up in 1 week!" ].

Definition resume_response : str := Eval vm_compute in lines
  [ utf8 "📄 **Resume Optimization**";
    [];
    utf8 "**Structure:** Header → Summary → Experience → Skills";
    [];
    utf8 "**Writing:** Action verbs + Quantified results + Job keywords";
    [];
    utf8 "**ATS-friendly:** PDF format, simple layout, standard fonts";
    [];
    utf8 "**Test:** Upload to Jobscan.co for ATS score";
    [];
    utf8 "Want help with specific sections?" ].

Definition skills_suggestions : list str := Eval vm_compute in
  [ utf8 "🐍 Python learning roadmap";
    utf8 "🤖 AI/ML fundamentals";
    utf8 "☁️ Cloud platforms guide";
    utf8 "💻 Full-stack development" ].

Definition salary_suggestions : list str := Eval vm_compute in
  [ utf8 "💼 Entry-level tech salaries";
    utf8 "🏢 Big tech compensation";
    utf8 "📍 Location-based pay";
    utf8 "💰 Salary negotiation tips" ].

Definition interview_suggestions : list str := Eval vm_compute in
  [ utf8 "❓ Common tech questions";
    utf8 "💡 STAR method examples";
    utf8 "🎯 System design basics";
    utf8 "👔 Behavioral interview prep" ].

Definition resume_suggestions : list str := Eval vm_compute in
  [ utf8 "📄 Upload my resume now";
    utf8 "✨ Resume formatting tips";
    utf8 "🎯 ATS optimization guide";
    utf8 "💼 Cover letter tips" ].

Definition other_suggestions : list str := Eval vm_compute in
  [ utf8 "💼 Career guidance";
    utf8 "📈 Skill development";
    utf8 "💰 Salary information";
    utf8 "🎤 Interview preparation" ].

(** The template text of the [else] branch of [get_ai_response]; it quotes
    the user's message. *)
Definition default_response (user_message : str) : str :=
  lines
  [ utf8 "🤖 **Got it: " ++ quoted user_message ++ utf8 "**";
    [];
    utf8 "I help with:";
    utf8 "💼 Job search & career strategy";
    utf8 "💰 Salary data & negotiation  ";
    utf8 "🎓 Tech skills & learning";
    utf8 "🎯 Interview preparation";
    [];
    utf8 "**Quick examples:**";
    quoted (utf8 "Software engineer salary");
    quoted (utf8 "Skills for AI jobs") ++ utf8 "  ";
    quoted (utf8 "Google interview prep");
    [];
    utf8 "What do you need help with?" ].

(** [english_response] as [get_ai_response] picks it. *)
Definition english_response (i : intent) (user_message : str) : str :=
  match i with
  | Greeting => greeting_response
  | Salary => salary_response
  | Skills => skills_response
  | Interview => interview_response
  | Job => job_response
  | Resume => resume_response
  | Default => default_response user_message
  end.

(** The lists [generate_smart_suggestions] returns, by intent: four of the
    intents have a list of their own, the others share the last one. *)
Definition suggestions_for (i : intent) : list str :=
  match i with
  | Skills => skills_suggestions
  | Salary => salary_suggestions
  | Interview => interview_suggestions
  | Resume => resume_suggestions
  | Greeting | Job | Default => other_suggestions
  end.

End Catalog.
Export Catalog.

(** ** The outside world *)

Module World.

(** One request to the translation service: the stripped text that is
    URL-quoted into [q] and the target code of [langpair=en|target]. *)
Record request : Type := { q : str; target_code : str }.

(** What [response.json()] gives: it raises on a payload that is no JSON, or
    yields a document in which [responseData.translatedText] is present or
    not. A present [translatedText] is taken to be a string, as the service
    declares it; a reply that carries [null] or a number there is not among
    the replies modelled. *)
Inductive payload : Type :=
  | BadJson (e : str)
  | Fields (translatedText : option str).

(** What [requests.get(url, timeout=10)] does: raise (time-out, connection
    error; [e] is the exception's text) or hand back a response. *)
Inductive reply : Type :=
  | Raised (e : str)
  | Response (status_code : N) (body : payload).

(** A reply that makes [translate_single_chunk] fall back to its input. *)
Definition failed (r : reply) : bool :=
  match r with
  | Raised _ => true
  | Response status body =>
      negb (status =? 200)%N ||
      match body with
      | BadJson _ => true
      | Fields None => true
      | Fields (Some _) => false
      end
  end.

(** A row of the [chats] table. *)
Record row : Type :=
  { user_message : str; bot_response : str; timestamp : str }.

(** The state the handlers act on: the requests sent so far (oldest first),
    the [chats] table, and how often the clock has been read. *)
Record world : Type :=
  { calls : list request; chats : list row; ticks : nat }.

Definition sent (r : request) (w : world) : world :=
  {| calls := calls w ++ [r]; chats := chats w; ticks := ticks w |}.

Definition stored (r : row) (w : world) : world :=
  {| calls := calls w; chats := chats w ++ [r]; ticks := ticks w |}.

Definition ticked (w : world) : world :=
  {| calls := calls w; chats := chats w; ticks := S (ticks w) |}.

(** A computation returns a value or raises an exception (carried as its
    text, [str(e)]), and leaves a world behind either way. *)
Inductive result (A : Type) : Type :=
  | Ret (a : A)
  | Raise (e : str).
Arguments Ret {A} a.
Arguments Raise {A} e.

Definition M (A : Type) : Type := world -> result A * world.

Definition ret {A} (a : A) : M A := fun w => (Ret a, w).

Definition raise {A} (e : str) : M A := fun w => (Raise e, w).

Definition bind {A B} (m : M A) (k : A -> M B) : M B :=
  fun w =>
    match m w with
    | (Ret a, w') => k a w'
    | (Raise e, w') => (Raise e, w')
    end.

(** [try: m  except Exception as e: handler(e)] *)
Definition try_except {A} (m : M A) (handler : str -> M A) : M A :=
  fun w =>
    match m w with
    | (Ret a, w') => (Ret a, w')
    | (Raise e, w') => handler e w'
    end.

End World.
Export World.

Notation "x <- m ;; k" := (bind m (fun x => k))
  (at level 61, m at next level, right associativity).

(** ** Translation, response assembly and the chat handler *)

Module App.

Definition en : str := Eval vm_compute in utf8 "en".
Definition hi : str := Eval vm_compute in utf8 "hi".
Definition pa : str := Eval vm_compute in utf8 "pa".
Definition kn : str := Eval vm_compute in utf8 "kn".

Definition bullet : N := 8226.
Definition blank_line : str := [newline; newline].

(** [lang_map.get(target_language, 'en')] *)
Definition lang_map : list (str * str) :=
  [ (hi, hi); (pa, pa); (kn, kn); (en, en) ].

Fixpoint get (m : list (str * str)) (key : str) (default : str) : str :=
  match m with
  | [] => default
  | (k, v) :: rest => if str_eqb k key then v else get rest key default
  end.

(** [if current_chunk.strip(): chunks.append(current_chunk)] *)
Definition flush (chunks : list str) (current_chunk : str) : list str :=
  if truthy (strip current_chunk) then chunks ++ [current_chunk] else chunks.

(** The loop over [parts[1:]] of a paragraph with bullets, and the flush
    after it. *)
Fixpoint bullet_loop (parts : list str) (current_chunk : str)
    (chunks : list str) : list str :=
  match parts with
  | [] => flush chunks current_chunk
  | part :: rest =>
      if List.length (current_chunk ++ bullet :: part) <=? 250
      then bullet_loop rest (current_chunk ++ bullet :: part) chunks
      else bullet_loop rest (bullet :: part) (flush chunks current_chunk)
  end.

(** The loop over the sentences of a paragraph without bullets, and the
    flush after it. *)
Fixpoint sentence_loop (sentences : list str) (current_chunk : str)
    (chunks : list str) : list str :=
  match sentences with
  | [] => flush chunks current_chunk
  | sentence :: rest =>
      if List.length (current_chunk ++ sentence) <=? 250
      then sentence_loop rest (current_chunk ++ sentence) chunks
      else sentence_loop rest sentence (flush chunks current_chunk)
  end.

(** [paragraph.replace('. ', '.|').split('|')] *)
Definition sentences_of (paragraph : str) : list str :=
  split [124%N] (replace [46%N; 32%N] [46%N; 124%N] paragraph).

(** The body of [for paragraph in paragraphs]: what one paragraph adds to
    [chunks]. *)
Definition add_paragraph (chunks : list str) (paragraph : str) : list str :=
  if List.length paragraph <=? 250 then chunks ++ [paragraph]
  else if contains [bullet] paragraph then
    match split [bullet] paragraph with
    | first :: parts => bullet_loop parts first chunks
    | [] => chunks
    end
  else sentence_loop (sentences_of paragraph) [] chunks.

(** The splitting step of [translate_text_smart]: the value of [chunks]
    when the translation loop starts. *)
Definition split_chunks (text : str) : list str :=
  fold_left add_paragraph (split blank_line text) [].

Section Handlers.

Variable lower : str -> str.

(** The translation service: its reply to a request, given the requests it
    has received before. *)
Variable service : list request -> request -> reply.

(** [requests.get(url, timeout=10)] *)
Definition requests_get (text target : str) : M (N * payload) :=
  fun w =>
    let r := {| q := text; target_code := target |} in
    match service (calls w) r with
    | Raised e => (Raise e, sent r w)
    | Response status body => (Ret (status, body), sent r w)
    end.

(** [response.json()] and the two membership tests on it. *)
Definition translated_text (body : payload) : M (option str) :=
  match body with
  | BadJson e => raise e
  | Fields t => ret t
  end.

Definition translate_single_chunk (text target : str) : M str :=
  try_except
    (if List.length (strip text) =? 0 then ret text
     else
       response <- requests_get (strip text) target ;;
       if (fst response =? 200)%N then
         data <- translated_text (snd response) ;;
         match data with
         | Some translatedText => ret translatedText
         | None => ret text
         end
       else ret text)
    (fun _ => ret text).

(** [for chunk in chunks: if chunk.strip(): ...append(...)] *)
Fixpoint translate_chunks (chunks : list str) (target : str)
    (translated_parts : list str) : M (list str) :=
  match chunks with
  | [] => ret translated_parts
  | chunk :: rest =>
      if truthy (strip chunk) then
        translated <- translate_single_chunk chunk target ;;
        translate_chunks rest target (translated_parts ++ [translated])
      else translate_chunks rest target translated_parts
  end.

Definition translate_text_smart (text target_language : str) : M str :=
  if str_eqb target_language en || negb (truthy (strip text)) then ret text
  else
    try_except
      (let target := get lang_map target_language en in
       if List.length text <=? 250 then translate_single_chunk text target
       else
         translated_parts <- translate_chunks (split_chunks text) target [] ;;
         ret (join blank_line translated_parts))
      (fun _ => ret text).

Definition get_ai_response (user_message language : str) : M str :=
  let intent := detect_intent_multilingual lower user_message in
  let english_response := english_response intent user_message in
  if negb (str_eqb language en) then
    try_except (translate_text_smart english_response language)
               (fun _ => ret english_response)
  else ret english_response.

Definition generate_smart_suggestions
    (user_message ai_response language : str) : list str :=
  suggestions_for (detect_intent_multilingual lower user_message).

(** *** [/api/chat] *)

(** The JSON body of a request; a key may be absent. *)
Record chat_request : Type :=
  { message : option str; language : option str }.

(** What the handler answers: the success document, with status 200, or an
    error document with its status. *)
Inductive chat_response : Type :=
  | Success (response : str) (suggestions : list str)
            (language : str) (timestamp : str)
  | Failure (status : N) (error : str).

Definition empty_message_received : str :=
  Eval vm_compute in utf8 "Empty message received".

(** [datetime.now().isoformat()]: the text of the n-th reading. *)
Variable isoformat : nat -> str.

Definition now : M str := fun w => (Ret (isoformat (ticks w)), ticked w).

(** Whether [get_db_connection] yields a connection, and whether the
    [INSERT] and its commit go through. *)
Variable db_connects : world -> bool.
Variable db_commits : world -> bool.

(** The [try] block around the [INSERT]; its failures are swallowed. *)
Definition save_chat (user_message bot_response : str) : M unit :=
  fun w =>
    if db_connects w then
      match now w with
      | (Ret stamp, w') =>
          if db_commits w'
          then (Ret tt,
                stored {| user_message := user_message;
                          bot_response := bot_response;
                          timestamp := stamp |} w')
          else (Ret tt, w')
      | (Raise _, w') => (Ret tt, w')
      end
    else (Ret tt, w).

Definition from_option (o : option str) (default : str) : str :=
  match o with Some v => v | None => default end.

Definition chat (data : chat_request) : world -> chat_response * world :=
  fun w =>
    let user_message := strip (from_option (message data) []) in
    let language := from_option (language data) en in
    if negb (truthy user_message)
    then (Failure 400 empty_message_received, w)
    else
      let user_message := join [32%N] (split_whitespace user_message) in
      let handled :=
        (bot_response <- get_ai_response user_message language ;;
         let suggestions :=
           generate_smart_suggestions user_message bot_response language in
         _ <- save_chat user_message bot_response ;;
         stamp <- now ;;
         ret (Success bot_response suggestions language stamp)) w in
      match handled with
      | (Ret answer, w') => (answer, w')
      | (Raise e, w') => (Failure 500 e, w')
      end.

End Handlers.

End App.
Export App.

(** ** Notions the statements use *)

Module Notions.

(** Empty or made of whitespace only. *)
Definition whitespace_only (s : str) : bool := forallb isspace s.

(** A translation service that is down: every request raises. *)
Definition always_down : list request -> request -> reply :=
  fun _ _ => Raised [].

(** The service fails on every call. *)
Definition fails_always (service : list request -> request -> reply) : Prop :=
  forall history r, failed (service history r) = true.

Definition fresh_world : world := {| calls := []; chats := []; ticks := 0 |}.

(** The pieces a paragraph with bullets is accumulated from: the text before
    the first bullet, and every bullet with the text after it. *)
Definition bullet_units (paragraph : str) : list str :=
  match split [bullet] paragraph with
  | first :: parts => first :: map (cons bullet) parts
  | [] => []
  end.

(** The units of a paragraph that is too long: its bullet parts if it has
    a bullet, its sentences otherwise. *)
Definition units_of (paragraph : str) : list str :=
  if contains [bullet] paragraph then bullet_units paragraph
  else sentences_of paragraph.

(** A chunk respects the limit, or is one whole unit of a paragraph that is
    too long. *)
Definition within_limit_or_unit (paragraphs : list str) (chunk : str) : Prop :=
  List.length chunk <= 250 \/
  exists paragraph,
    In paragraph paragraphs /\ 250 < List.length paragraph /\
    In chunk (units_of paragraph).

(** The request [translate_single_chunk] sends for a chunk. *)
Definition request_for (target chunk : str) : request :=
  {| q := strip chunk; target_code := target |}.

(** The chunks the translation loop does not skip. *)
Definition nonblank_chunks (text : str) : list str :=
  filter (fun chunk => truthy (strip chunk)) (split_chunks text).

(** What [translate_text_smart] returns when no chunk gets translated: the
    text itself on the identity path and for a short text, the chunks joined
    by blank lines for a long one. *)
Definition untranslated (text target_language : str) : str :=
  if str_eqb target_language en || negb (truthy (strip text)) then text
  else if List.length text <=? 250 then text
  else join blank_line (nonblank_chunks text).

(** A paragraph of 200 letters [a], a bullet and 100 letters [b]. *)
Definition long_bullet_paragraph : str :=
  repeat 97%N 200 ++ bullet :: repeat 98%N 100.

(** 251 vertical bars. *)
Definition bars : str := repeat 124%N 251.

(** The suggestions of an answer of [/api/chat], if it is a success. *)
Definition suggestions_of (answer : chat_response) : option (list str) :=
  match answer with
  | Success _ suggestions _ _ => Some suggestions
  | Failure _ _ => None
  end.

End Notions.
Export Notions.

(** ** [/api/speak] *)

Module Speech.

(** An entry of [LANGUAGES]. *)
Record language_config : Type := { name : str; tts_lang : str }.

Definition LANGUAGES : list (str * language_config) :=
  [ (en, {| name := utf8 "English"; tts_lang := en |});
    (hi, {| name := utf8 "हिन्दी"; tts_lang := hi |});
    (pa, {| name := utf8 "ਪੰਜਾਬੀ"; tts_lang := hi |});
    (kn, {| name := utf8 "ಕನ್ನಡ"; tts_lang := hi |}) ].

(** [LANGUAGES.get(key, default)] *)
Fixpoint languages_get (table : list (str * language_config)) (key : str)
    (default : language_config) : language_config :=
  match table with
  | [] => default
  | (k, v) :: rest =>
      if str_eqb k key then v else languages_get rest key default
  end.

(** [LANGUAGES['en']] *)
Definition english_config : language_config :=
  {| name := utf8 "English"; tts_lang := en |}.

(** The JSON body of a request to [/api/speak]; a key may be absent. *)
Record speak_request : Type :=
  { text : option str; speak_language : option str }.

(** What the handler answers: the audio as a file to download, or an error
    document with its status. *)
Inductive speak_response : Type :=
  | AudioFile (download_name mimetype : str) (audio : list N)
  | SpeakFailure (status : N) (error : str).

Section Speak.

(** [gTTS(text=..., lang=..., slow=False)] and [tts.save]: the audio, or the
    exception either of them raises. *)
Variable gtts : str -> str -> result (list N).

Definition text_to_speech (data : speak_request) : speak_response :=
  let text := from_option (text data) [] in
  let language := from_option (speak_language data) en in
  let lang_config := languages_get LANGUAGES language english_config in
  let tts_lang := tts_lang lang_config in
  match gtts text tts_lang with
  | Ret audio =>
      AudioFile (utf8 "speech_" ++ language ++ utf8 ".mp3")
                (utf8 "audio/mpeg") audio
  | Raise e => SpeakFailure 500 e
  end.

End Speak.

End Speech.
Export Speech.

(** ** Further notions *)

Module Measures.

(** The place of an intent in the order the classifier tries them. *)
Definition rank (i : intent) : nat :=
  match i with
  | Greeting => 0 | Salary => 1 | Skills => 2 | Interview => 3
  | Job => 4 | Resume => 5 | Default => 6
  end.

(** [' '.join(user_message.split())], the clean-up of [chat]. *)
Definition clean (user_message : str) : str :=
  join [32%N] (split_whitespace user_message).

(** A word as [str.split] yields them: not empty, no whitespace in it. *)
Definition is_word (w : str) : bool :=
  truthy w && forallb (fun c => negb (isspace c)) w.

(** The characters of a text that are neither whitespace nor the vertical
    bar; chunking moves the former and drops the latter. *)
Definition is_ink (c : N) : bool := negb (isspace c) && negb (c =? 124)%N.

Definition ink (s : str) : str := filter is_ink s.

(** A service that answers every request with status 200 and the
    translation [tr] gives for it. *)
Definition translates_with (tr : request -> str)
    (service : list request -> request -> reply) : Prop :=
  forall history r, service history r = Response 200 (Fields (Some (tr r))).

(** A lower-casing keeps a message recognisable inside a longer one. *)
Definition embeds (lower : str -> str) (before message after : str) : Prop :=
  exists before' after',
    lower (before ++ message ++ after) = before' ++ lower message ++ after'.

End Measures.
Export Measures.

(** ** Python strings: facts *)

Lemma str_eqb_eq (a b : str) : str_eqb a b = true <-> a = b.
Proof.
  revert b; induction a as [|x a IH]; intros [|y b]; simpl; split;
    try discriminate; try reflexivity.
  - intros H. apply andb_true_iff in H as [Hx Hab].
    apply N.eqb_eq in Hx. apply IH in Hab. congruence.
  - intros H. injection H as -> ->.
    apply andb_true_iff. split; [apply N.eqb_refl | now apply IH].
Qed.

Lemma str_eqb_refl (a : str) : str_eqb a a = true.
Proof. now apply str_eqb_eq. Qed.

Lemma lstrip_whitespace (s : str) : whitespace_only s = true -> lstrip s = [].
Proof.
  induction s as [|c s IH]; simpl; [reflexivity|].
  intros H. apply andb_true_iff in H as [Hc Hs]. now rewrite Hc, IH.
Qed.

Lemma strip_whitespace (s : str) : whitespace_only s = true -> strip s = [].
Proof.
  intros H. unfold strip. now rewrite lstrip_whitespace.
Qed.

Lemma lstrip_head (s : str) (c : N) (rest : str) :
  lstrip s = c :: rest -> isspace c = false.
Proof.
  induction s as [|x s IH]; simpl; [discriminate|].
  destruct (isspace x) eqn:Hx; [exact IH|].
  intros H. injection H as -> _. exact Hx.
Qed.

Lemma lstrip_empty (s : str) : lstrip s = [] -> whitespace_only s = true.
Proof.
  induction s as [|x s IH]; simpl; [reflexivity|].
  destruct (isspace x); [exact IH | discriminate].
Qed.

Lemma whitespace_only_rev (s : str) :
  whitespace_only (rev s) = whitespace_only s.
Proof.
  unfold whitespace_only. induction s as [|x s IH]; [reflexivity|].
  simpl. rewrite forallb_app, IH. simpl. rewrite andb_true_r.
  apply andb_comm.
Qed.

(** [s.strip()] is empty exactly when [s] is empty or whitespace only. *)
Lemma strip_empty (s : str) : strip s = [] -> whitespace_only s = true.
Proof.
  unfold strip, rstrip. intros H.
  apply (f_equal (@rev N)) in H. rewrite rev_involutive in H. simpl in H.
  apply lstrip_empty in H. rewrite whitespace_only_rev in H.
  apply lstrip_empty.
  destruct (lstrip s) as [|c rest] eqn:Hs; [reflexivity|].
  apply lstrip_head in Hs. simpl in H. now rewrite Hs in H.
Qed.

Lemma truthy_strip (s : str) :
  truthy (strip s) = negb (whitespace_only s).
Proof.
  destruct (whitespace_only s) eqn:Hs.
  - now rewrite strip_whitespace.
  - destruct (strip s) eqn:Hstrip; [|reflexivity].
    apply strip_empty in Hstrip. congruence.
Qed.

Lemma startswith_app (p s : str) :
  startswith p s = true -> p ++ skipn (List.length p) s = s.
Proof.
  revert s; induction p as [|x p IH]; intros [|y s]; simpl;
    try discriminate; try reflexivity.
  intros H. apply andb_true_iff in H as [Hx Hp].
  apply N.eqb_eq in Hx. subst y. now rewrite IH.
Qed.

Lemma join_cons (sep x : str) (y : str) (rest : list str) :
  join sep (x :: y :: rest) = x ++ sep ++ join sep (y :: rest).
Proof. reflexivity. Qed.

Lemma join_push (sep : str) (c : N) (piece : str) (pieces : list str) :
  join sep ((c :: piece) :: pieces) = c :: join sep (piece :: pieces).
Proof. destruct pieces; reflexivity. Qed.

Lemma split_from_nonempty (sep s : str) (skip : nat) :
  split_from sep s skip <> [].
Proof.
  revert skip; induction s as [|c s IH]; intros skip; simpl; [discriminate|].
  destruct skip as [|k]; [|apply IH].
  destruct (startswith sep (c :: s)); [discriminate|].
  destruct (split_from sep s 0); discriminate.
Qed.

(** Joining the pieces of a split with the separator gives the text back. *)
Lemma join_split_from (sep s : str) (skip : nat) :
  sep <> [] -> join sep (split_from sep s skip) = skipn skip s.
Proof.
  intros Hsep. revert skip; induction s as [|c s IH]; intros skip.
  - now destruct skip.
  - destruct skip as [|k]; [|simpl; apply IH].
    cbn [split_from skipn].
    destruct (startswith sep (c :: s)) eqn:Hstart.
    + destruct (split_from sep s (List.length sep - 1)) as [|p ps] eqn:Hsplit;
        [now apply split_from_nonempty in Hsplit|].
      rewrite join_cons, <- Hsplit, IH. simpl.
      destruct sep as [|x sep']; [congruence|].
      simpl in Hstart. apply andb_true_iff in Hstart as [Hx Hrest].
      apply N.eqb_eq in Hx. subst x. simpl. rewrite Nat.sub_0_r.
      now rewrite startswith_app.
    + destruct (split_from sep s 0) as [|p ps] eqn:Hsplit;
        [now apply split_from_nonempty in Hsplit|].
      rewrite join_push, <- Hsplit, IH. reflexivity.
Qed.

Lemma join_split (sep s : str) : sep <> [] -> join sep (split sep s) = s.
Proof. intros H. unfold split. now rewrite join_split_from. Qed.

(** ** The classifier *)

Lemma detect_is_classify (lower : str -> str) (user_message : str) :
  detect_intent_multilingual lower user_message = classify lower user_message.
Proof.
  unfold detect_intent_multilingual, classify, priority_order.
  cbn [find fst snd].
  repeat match goal with
         | |- context [if ?b then _ else _] => destruct b; [reflexivity|]
         end.
  reflexivity.
Qed.

(** C1. [detect_intent_multilingual] returns, for every message, the intent
    of the first rule, in the order greeting, salary, skills, interview, job,
    resume, one of whose keywords occurs in the lower-cased message, and
    [Default] if there is none; so a message with a greeting keyword and a
    salary keyword is a greeting. *)
Theorem detect_intent_first_match (lower : str -> str) (user_message : str) :
  detect_intent_multilingual lower user_message = classify lower user_message
  /\ (forall before rule after,
        priority_order = before ++ rule :: after ->
        any_in (snd rule) (lower user_message) = true ->
        Forall (fun earlier =>
                  any_in (snd earlier) (lower user_message) = false) before ->
        detect_intent_multilingual lower user_message = fst rule)
  /\ (Forall (fun rule => any_in (snd rule) (lower user_message) = false)
             priority_order ->
      detect_intent_multilingual lower user_message = Default)
  /\ (any_in greeting_words (lower user_message) = true ->
      any_in salary_words (lower user_message) = true ->
      detect_intent_multilingual lower user_message = Greeting).
Proof.
  split; [apply detect_is_classify|].
  rewrite detect_is_classify. unfold classify.
  split; [|split].
  - intros before rule after -> Hhit Hmiss.
    induction Hmiss as [|earlier before Hearlier _ IH]; cbn [app find].
    + now rewrite Hhit.
    + now rewrite Hearlier.
  - generalize priority_order. intros rules Hmiss.
    induction Hmiss as [|rule rules Hrule _ IH]; cbn [find];
      [reflexivity | now rewrite Hrule].
  - intros Hgreeting _. unfold priority_order. cbn [find snd fst].
    now rewrite Hgreeting.
Qed.

Lemma detect_intent_first_match_witness :
  any_in greeting_words (ascii_lower (utf8 "Hi, what salary?")) = true /\
  any_in salary_words (ascii_lower (utf8 "Hi, what salary?")) = true /\
  detect_intent_multilingual ascii_lower (utf8 "Hi, what salary?") = Greeting.
Proof.
  split; [vm_compute; reflexivity|].
  split; [vm_compute; reflexivity|].
  apply (detect_intent_first_match ascii_lower (utf8 "Hi, what salary?"));
    vm_compute; reflexivity.
Defined.

(** ** The catalogue *)

(** C6. Whatever the intent, the catalogue has exactly four suggestions for
    it and a response text that is not empty; so [generate_smart_suggestions]
    always returns four items. *)
Theorem catalog_is_complete (i : intent) (lower : str -> str)
    (user_message ai_response language : str) :
  List.length (suggestions_for i) = 4
  /\ english_response i user_message <> []
  /\ List.length
       (generate_smart_suggestions lower user_message ai_response language) = 4.
Proof.
  split; [|split].
  - destruct i; reflexivity.
  - destruct i; vm_compute; discriminate.
  - unfold generate_smart_suggestions.
    destruct (detect_intent_multilingual lower user_message); reflexivity.
Qed.

(** ** Computations that return *)

Section Returning.

Variable lower : str -> str.
Variable service : list request -> request -> reply.

Lemma try_except_returns {A : Type} (m : M A) (fallback : A) (w : world) :
  exists a w', try_except m (fun _ => ret fallback) w = (Ret a, w').
Proof.
  unfold try_except, ret. destruct (m w) as [[a|e] w']; eauto.
Qed.

Lemma translate_text_smart_returns (text target_language : str) (w : world) :
  exists out w',
    translate_text_smart service text target_language w = (Ret out, w').
Proof.
  unfold translate_text_smart.
  destruct (str_eqb target_language en || negb (truthy (strip text))).
  - unfold ret. eauto.
  - apply try_except_returns.
Qed.

Lemma get_ai_response_returns (user_message language : str) (w : world) :
  exists bot_response w',
    get_ai_response lower service user_message language w
    = (Ret bot_response, w').
Proof.
  unfold get_ai_response.
  destruct (negb (str_eqb language en)).
  - apply try_except_returns.
  - unfold ret. eauto.
Qed.

Variable isoformat : nat -> str.
Variables db_connects db_commits : world -> bool.

Lemma save_chat_returns (user_message bot_response : str) (w : world) :
  exists w',
    save_chat isoformat db_connects db_commits user_message bot_response w
    = (Ret tt, w').
Proof.
  unfold save_chat, now. destruct (db_connects w); [|eauto].
  destruct (db_commits _); eauto.
Qed.

(** A message that is not blank is answered with the success document, and
    its suggestions are those of the intent of the cleaned message. *)
Lemma chat_answers (data : chat_request) (w : world) :
  truthy (strip (from_option (message data) [])) = true ->
  exists bot_response stamp w',
    chat lower service isoformat db_connects db_commits data w
    = (Success bot_response
         (suggestions_for
            (detect_intent_multilingual lower
               (join [32%N]
                  (split_whitespace (strip (from_option (message data) []))))))
         (from_option (language data) en) stamp, w').
Proof.
  intros Hmessage. unfold chat. rewrite Hmessage. cbn [negb].
  unfold bind at 1.
  destruct (get_ai_response_returns
              (join [32%N]
                 (split_whitespace (strip (from_option (message data) []))))
              (from_option (language data) en) w) as (bot & w1 & Hbot).
  rewrite Hbot. unfold bind at 1.
  destruct (save_chat_returns
              (join [32%N]
                 (split_whitespace (strip (from_option (message data) []))))
              bot w1) as (w2 & Hsave).
  rewrite Hsave. unfold bind, now, ret, generate_smart_suggestions.
  eauto.
Qed.

End Returning.

(** ** The identity path of the translator *)

(** C4. With target language ['en'] the translator returns its text as it
    is, and so it does with any target language when the text is empty or
    whitespace only; the world it leaves is the one it found, so no request
    went to the translation service. *)
Theorem translate_identity (service : list request -> request -> reply)
    (text target_language : str) (w : world) :
  translate_text_smart service text en w = (Ret text, w)
  /\ (whitespace_only text = true ->
      translate_text_smart service text target_language w = (Ret text, w)).
Proof.
  unfold translate_text_smart. split.
  - reflexivity.
  - intros Hblank. rewrite (strip_whitespace _ Hblank). cbn [truthy negb].
    now rewrite orb_true_r.
Qed.

Lemma translate_identity_witness :
  whitespace_only (utf8 "  ") = true /\
  translate_text_smart always_down (utf8 "  ") hi fresh_world
  = (Ret (utf8 "  "), fresh_world).
Proof.
  split; [reflexivity|].
  apply (translate_identity always_down (utf8 "  ") hi fresh_world).
  reflexivity.
Defined.

(** ** The chat handler *)

(** C8. A request whose message is absent, empty or whitespace only is
    answered with status 400 and the error [Empty message received]; the
    world is left as it was: no translation request, no row in [chats]. *)
Theorem chat_rejects_blank_message (lower : str -> str)
    (service : list request -> request -> reply) (isoformat : nat -> str)
    (db_connects db_commits : world -> bool)
    (data : chat_request) (w : world) :
  whitespace_only (from_option (message data) []) = true ->
  chat lower service isoformat db_connects db_commits data w
  = (Failure 400 (utf8 "Empty message received"), w).
Proof.
  intros Hblank. unfold chat.
  now rewrite (strip_whitespace _ Hblank).
Qed.

Lemma chat_rejects_blank_message_witness :
  chat ascii_lower always_down (fun _ => []) (fun _ => true) (fun _ => true)
       {| message := Some (utf8 "   "); language := Some hi |} fresh_world
  = (Failure 400 (utf8 "Empty message received"), fresh_world).
Proof.
  apply (chat_rejects_blank_message ascii_lower always_down (fun _ => [])
           (fun _ => true) (fun _ => true)
           {| message := Some (utf8 "   "); language := Some hi |}
           fresh_world).
  reflexivity.
Defined.

(** C9. The suggestions depend on the message alone: whatever the two
    language codes (and the two response texts), [generate_smart_suggestions]
    returns the same list, and so do two runs of the chat handler on the
    same message, whatever the translation service, the clock and the
    database do in each. *)
Theorem suggestions_ignore_language (lower : str -> str)
    (user_message response1 response2 language1 language2 : str)
    (service1 service2 : list request -> request -> reply)
    (isoformat1 isoformat2 : nat -> str)
    (db_connects1 db_commits1 db_connects2 db_commits2 : world -> bool)
    (message : option str) (code1 code2 : option str) (w1 w2 : world) :
  generate_smart_suggestions lower user_message response1 language1
  = generate_smart_suggestions lower user_message response2 language2
  /\ suggestions_of
       (fst (chat lower service1 isoformat1 db_connects1 db_commits1
               {| message := message; language := code1 |} w1))
     = suggestions_of
         (fst (chat lower service2 isoformat2 db_connects2 db_commits2
                 {| message := message; language := code2 |} w2)).
Proof.
  split; [reflexivity|].
  destruct (truthy (strip (from_option message []))) eqn:Hmessage.
  - destruct (chat_answers lower service1 isoformat1 db_connects1 db_commits1
                {| message := message; language := code1 |} w1 Hmessage)
      as (bot1 & stamp1 & w1' & H1).
    destruct (chat_answers lower service2 isoformat2 db_connects2 db_commits2
                {| message := message; language := code2 |} w2 Hmessage)
      as (bot2 & stamp2 & w2' & H2).
    rewrite H1, H2. reflexivity.
  - unfold chat. cbn [App.message]. rewrite Hmessage. reflexivity.
Qed.

(** C7. The message ["hi"] in English: the intent is the greeting, the
    response is the greeting text itself and nothing is sent for
    translation, and the suggestions are the four of the greeting. *)
Theorem hi_is_greeted_in_english (lower : str -> str)
    (service : list request -> request -> reply) (w : world) :
  lower (utf8 "hi") = utf8 "hi" ->
  detect_intent_multilingual lower (utf8 "hi") = Greeting
  /\ get_ai_response lower service (utf8 "hi") en w = (Ret greeting_response, w)
  /\ generate_smart_suggestions lower (utf8 "hi") greeting_response en
     = suggestions_for Greeting
  /\ List.length (suggestions_for Greeting) = 4.
Proof.
  intros Hlower.
  assert (Hintent : detect_intent_multilingual lower (utf8 "hi") = Greeting).
  { unfold detect_intent_multilingual. rewrite Hlower. reflexivity. }
  repeat split.
  - exact Hintent.
  - unfold get_ai_response. rewrite Hintent. reflexivity.
  - unfold generate_smart_suggestions. now rewrite Hintent.
Qed.

Lemma hi_is_greeted_in_english_witness :
  ascii_lower (utf8 "hi") = utf8 "hi" /\
  get_ai_response ascii_lower always_down (utf8 "hi") en fresh_world
  = (Ret greeting_response, fresh_world).
Proof.
  split; [reflexivity|].
  apply (hi_is_greeted_in_english ascii_lower always_down fresh_world).
  reflexivity.
Defined.

(** ** The chunks of a long text *)

Section ChunkInvariant.

(** A property of chunks that every chunk within the limit has. *)
Variable P : str -> Prop.
Hypothesis P_within_limit : forall chunk, List.length chunk <= 250 -> P chunk.

Lemma flush_keeps (chunks : list str) (current_chunk : str) :
  Forall P chunks -> P current_chunk -> Forall P (flush chunks current_chunk).
Proof.
  intros Hchunks Hcurrent. unfold flush.
  destruct (truthy (strip current_chunk)); [|exact Hchunks].
  apply Forall_app. auto.
Qed.

Lemma bullet_loop_keeps (parts : list str) :
  forall current_chunk chunks,
    Forall (fun part => P (bullet :: part)) parts ->
    P current_chunk -> Forall P chunks ->
    Forall P (bullet_loop parts current_chunk chunks).
Proof.
  induction parts as [|part rest IH]; intros current chunks Hparts Hcur Hchunks;
    cbn [bullet_loop].
  - now apply flush_keeps.
  - inversion Hparts as [|? ? Hpart Hrest]; subst.
    destruct (List.length (current ++ bullet :: part) <=? 250) eqn:Hfits.
    + apply IH; auto. apply P_within_limit. now apply Nat.leb_le.
    + apply IH; auto. now apply flush_keeps.
Qed.

Lemma sentence_loop_keeps (sentences : list str) :
  forall current_chunk chunks,
    Forall P sentences ->
    P current_chunk -> Forall P chunks ->
    Forall P (sentence_loop sentences current_chunk chunks).
Proof.
  induction sentences as [|sentence rest IH];
    intros current chunks Hsentences Hcur Hchunks; cbn [sentence_loop].
  - now apply flush_keeps.
  - inversion Hsentences as [|? ? Hsentence Hrest]; subst.
    destruct (List.length (current ++ sentence) <=? 250) eqn:Hfits.
    + apply IH; auto. apply P_within_limit. now apply Nat.leb_le.
    + apply IH; auto. now apply flush_keeps.
Qed.

End ChunkInvariant.

Lemma add_paragraph_keeps (paragraphs chunks : list str) (paragraph : str) :
  In paragraph paragraphs ->
  Forall (within_limit_or_unit paragraphs) chunks ->
  Forall (within_limit_or_unit paragraphs) (add_paragraph chunks paragraph).
Proof.
  intros Hin Hchunks. unfold add_paragraph.
  destruct (List.length paragraph <=? 250) eqn:Hshort.
  - apply Forall_app. split; [exact Hchunks|].
    constructor; [|constructor]. left. now apply Nat.leb_le.
  - apply Nat.leb_gt in Hshort.
    destruct (contains [bullet] paragraph) eqn:Hbullet.
    + destruct (split [bullet] paragraph) as [|first parts] eqn:Hsplit;
        [exact Hchunks|].
      apply bullet_loop_keeps; try exact Hchunks.
      * intros chunk Hlen. now left.
      * apply Forall_forall. intros part Hpart. right.
        exists paragraph. repeat split; try assumption.
        unfold units_of, bullet_units. rewrite Hbullet, Hsplit.
        right. now apply in_map.
      * right. exists paragraph. repeat split; try assumption.
        unfold units_of, bullet_units. rewrite Hbullet, Hsplit. now left.
    + apply sentence_loop_keeps; try exact Hchunks.
      * intros chunk Hlen. now left.
      * apply Forall_forall. intros sentence Hsentence. right.
        exists paragraph. repeat split; try assumption.
        unfold units_of. now rewrite Hbullet.
      * left. simpl. lia.
Qed.

Lemma fold_add_paragraph_keeps (paragraphs some : list str) :
  forall chunks,
    incl some paragraphs ->
    Forall (within_limit_or_unit paragraphs) chunks ->
    Forall (within_limit_or_unit paragraphs)
           (fold_left add_paragraph some chunks).
Proof.
  induction some as [|paragraph rest IH]; intros chunks Hincl Hchunks;
    cbn [fold_left]; [exact Hchunks|].
  apply IH.
  - intros p Hp. apply Hincl. now right.
  - apply add_paragraph_keeps; [apply Hincl; now left | exact Hchunks].
Qed.

(** *** Units that are too long stay whole *)

Lemma flush_incl (chunks : list str) (current_chunk chunk : str) :
  In chunk chunks -> In chunk (flush chunks current_chunk).
Proof.
  intros Hin. unfold flush. destruct (truthy (strip current_chunk)); [|exact Hin].
  apply in_or_app. now left.
Qed.

Lemma flush_adds (chunks : list str) (current_chunk : str) :
  whitespace_only current_chunk = false ->
  In current_chunk (flush chunks current_chunk).
Proof.
  intros Hblank. unfold flush. rewrite truthy_strip, Hblank. cbn [negb].
  apply in_or_app. right. now left.
Qed.

Lemma bullet_loop_incl (parts : list str) :
  forall current_chunk chunks chunk,
    In chunk chunks -> In chunk (bullet_loop parts current_chunk chunks).
Proof.
  induction parts as [|part rest IH]; intros current chunks chunk Hin;
    cbn [bullet_loop].
  - now apply flush_incl.
  - destruct (_ <=? 250); apply IH; [exact Hin | now apply flush_incl].
Qed.

Lemma bullet_loop_flushes_long (parts : list str) (current_chunk : str)
    (chunks : list str) :
  250 < List.length current_chunk ->
  whitespace_only current_chunk = false ->
  In current_chunk (bullet_loop parts current_chunk chunks).
Proof.
  intros Hlong Hblank. destruct parts as [|part rest]; cbn [bullet_loop].
  - now apply flush_adds.
  - assert (Hover : (List.length (current_chunk ++ bullet :: part) <=? 250)
                    = false).
    { apply Nat.leb_gt. rewrite length_app. lia. }
    rewrite Hover. apply bullet_loop_incl. now apply flush_adds.
Qed.

Lemma bullet_loop_keeps_long_part (parts : list str) :
  forall current_chunk chunks part,
    In part parts -> 250 < List.length (bullet :: part) ->
    In (bullet :: part) (bullet_loop parts current_chunk chunks).
Proof.
  induction parts as [|head rest IH]; intros current chunks part Hin Hlong;
    [contradiction|].
  cbn [bullet_loop]. destruct Hin as [->|Hin].
  - assert (Hover : (List.length (current ++ bullet :: part) <=? 250) = false).
    { apply Nat.leb_gt. rewrite length_app. lia. }
    rewrite Hover. now apply bullet_loop_flushes_long.
  - destruct (_ <=? 250); now apply IH.
Qed.

Lemma sentence_loop_incl (sentences : list str) :
  forall current_chunk chunks chunk,
    In chunk chunks -> In chunk (sentence_loop sentences current_chunk chunks).
Proof.
  induction sentences as [|sentence rest IH]; intros current chunks chunk Hin;
    cbn [sentence_loop].
  - now apply flush_incl.
  - destruct (_ <=? 250); apply IH; [exact Hin | now apply flush_incl].
Qed.

Lemma sentence_loop_flushes_long (sentences : list str) (current_chunk : str)
    (chunks : list str) :
  250 < List.length current_chunk ->
  whitespace_only current_chunk = false ->
  In current_chunk (sentence_loop sentences current_chunk chunks).
Proof.
  intros Hlong Hblank. destruct sentences as [|sentence rest];
    cbn [sentence_loop].
  - now apply flush_adds.
  - assert (Hover : (List.length (current_chunk ++ sentence) <=? 250) = false).
    { apply Nat.leb_gt. rewrite length_app. lia. }
    rewrite Hover. apply sentence_loop_incl. now apply flush_adds.
Qed.

Lemma sentence_loop_keeps_long_sentence (sentences : list str) :
  forall current_chunk chunks sentence,
    In sentence sentences -> 250 < List.length sentence ->
    whitespace_only sentence = false ->
    In sentence (sentence_loop sentences current_chunk chunks).
Proof.
  induction sentences as [|head rest IH];
    intros current chunks sentence Hin Hlong Hblank; [contradiction|].
  cbn [sentence_loop]. destruct Hin as [->|Hin].
  - assert (Hover : (List.length (current ++ sentence) <=? 250) = false).
    { apply Nat.leb_gt. rewrite length_app. lia. }
    rewrite Hover. now apply sentence_loop_flushes_long.
  - destruct (_ <=? 250); now apply IH.
Qed.

Lemma add_paragraph_incl (chunks : list str) (paragraph chunk : str) :
  In chunk chunks -> In chunk (add_paragraph chunks paragraph).
Proof.
  intros Hin. unfold add_paragraph.
  destruct (_ <=? 250); [apply in_or_app; now left|].
  destruct (contains [bullet] paragraph).
  - destruct (split [bullet] paragraph); [exact Hin|].
    now apply bullet_loop_incl.
  - now apply sentence_loop_incl.
Qed.

Lemma add_paragraph_keeps_long_unit (chunks : list str) (paragraph unit : str) :
  250 < List.length paragraph -> In unit (units_of paragraph) ->
  250 < List.length unit -> whitespace_only unit = false ->
  In unit (add_paragraph chunks paragraph).
Proof.
  intros Hparagraph Hunit Hlong Hblank. unfold add_paragraph.
  apply Nat.leb_gt in Hparagraph. rewrite Hparagraph.
  unfold units_of, bullet_units in Hunit.
  destruct (contains [bullet] paragraph).
  - destruct (split [bullet] paragraph) as [|first parts]; [contradiction|].
    destruct Hunit as [->|Hunit].
    + now apply bullet_loop_flushes_long.
    + apply in_map_iff in Hunit as (part & <- & Hpart).
      now apply bullet_loop_keeps_long_part.
  - now apply sentence_loop_keeps_long_sentence.
Qed.

Lemma fold_add_paragraph_incl (paragraphs : list str) :
  forall chunks chunk,
    In chunk chunks -> In chunk (fold_left add_paragraph paragraphs chunks).
Proof.
  induction paragraphs as [|paragraph rest IH]; intros chunks chunk Hin;
    cbn [fold_left]; [exact Hin|].
  apply IH. now apply add_paragraph_incl.
Qed.

Lemma fold_add_paragraph_keeps_long_unit (paragraphs : list str) :
  forall chunks paragraph unit,
    In paragraph paragraphs ->
    250 < List.length paragraph -> In unit (units_of paragraph) ->
    250 < List.length unit -> whitespace_only unit = false ->
    In unit (fold_left add_paragraph paragraphs chunks).
Proof.
  induction paragraphs as [|head rest IH];
    intros chunks paragraph unit Hin Hparagraph Hunit Hlong Hblank;
    [contradiction|].
  cbn [fold_left]. destruct Hin as [->|Hin].
  - apply fold_add_paragraph_incl. now apply add_paragraph_keeps_long_unit.
  - now apply (IH _ paragraph).
Qed.



(** A sentence of 300 characters after a short one stays whole. *)
Example long_sentence_kept_whole :
  split_chunks (utf8 "Short. " ++ repeat 120%N 300)
  = [utf8 "Short."; repeat 120%N 300].
Proof. vm_compute. reflexivity. Qed.

(** ** The translator when the service fails *)

Section ServiceDown.

Variable service : list request -> request -> reply.
Hypothesis down : fails_always service.

Lemma translate_single_chunk_down (text target : str) (w : world) :
  translate_single_chunk service text target w
  = (Ret text,
     if List.length (strip text) =? 0 then w
     else sent {| q := strip text; target_code := target |} w).
Proof.
  unfold translate_single_chunk, try_except.
  destruct (List.length (strip text) =? 0); [reflexivity|].
  unfold bind, requests_get.
  specialize (down (calls w) {| q := strip text; target_code := target |}).
  destruct (service (calls w) {| q := strip text; target_code := target |})
    as [e|status body]; [reflexivity|].
  cbn [fst snd failed] in *. revert down.
  destruct (status =? 200)%N; [|reflexivity].
  destruct body as [e|[translated|]]; try reflexivity.
  discriminate.
Qed.

Lemma translate_chunks_down (target : str) (chunks : list str) :
  forall translated_parts w,
  exists w',
    translate_chunks service chunks target translated_parts w
    = (Ret (translated_parts
            ++ filter (fun chunk => truthy (strip chunk)) chunks), w').
Proof.
  induction chunks as [|chunk rest IH]; intros parts w; cbn [translate_chunks filter].
  - rewrite app_nil_r. unfold ret. eauto.
  - destruct (truthy (strip chunk)); [|apply IH].
    unfold bind. rewrite translate_single_chunk_down.
    destruct (IH (parts ++ [chunk])
                 (if List.length (strip chunk) =? 0 then w
                  else sent {| q := strip chunk; target_code := target |} w))
      as (w' & Hrest).
    rewrite Hrest, <- app_assoc. eauto.
Qed.

Lemma translate_text_smart_down (text target_language : str) (w : world) :
  exists w',
    translate_text_smart service text target_language w
    = (Ret (untranslated text target_language), w').
Proof.
  unfold translate_text_smart, untranslated.
  destruct (str_eqb target_language en || negb (truthy (strip text)));
    [unfold ret; eauto|].
  unfold try_except. cbv zeta.
  destruct (List.length text <=? 250).
  - rewrite translate_single_chunk_down. eauto.
  - unfold bind.
    destruct (translate_chunks_down (get lang_map target_language en)
                (split_chunks text) [] w) as (w' & Hchunks).
    rewrite Hchunks. unfold ret, nonblank_chunks. cbn [app]. eauto.
Qed.

End ServiceDown.

Lemma fold_add_short_paragraphs (paragraphs : list str) :
  forall chunks,
    Forall (fun paragraph => List.length paragraph <= 250) paragraphs ->
    fold_left add_paragraph paragraphs chunks = chunks ++ paragraphs.
Proof.
  induction paragraphs as [|paragraph rest IH]; intros chunks Hshort;
    cbn [fold_left].
  - now rewrite app_nil_r.
  - inversion Hshort as [|? ? Hparagraph Hrest]; subst.
    rewrite IH by assumption. unfold add_paragraph.
    apply Nat.leb_le in Hparagraph. rewrite Hparagraph.
    now rewrite <- app_assoc.
Qed.

Lemma filter_all {A : Type} (f : A -> bool) (l : list A) :
  Forall (fun x => f x = true) l -> filter f l = l.
Proof.
  induction 1 as [|x l Hx _ IH]; cbn [filter]; [reflexivity|].
  now rewrite Hx, IH.
Qed.

(** A text all of whose paragraphs are short and not blank is put together
    again as it was. *)
Lemma short_paragraphs_rejoined (text : str) :
  Forall (fun paragraph =>
            List.length paragraph <= 250 /\ truthy (strip paragraph) = true)
         (split blank_line text) ->
  join blank_line (nonblank_chunks text) = text.
Proof.
  intros Hparagraphs. unfold nonblank_chunks, split_chunks.
  rewrite fold_add_short_paragraphs.
  - cbn [app]. rewrite filter_all.
    + apply join_split. discriminate.
    + eapply Forall_impl; [|exact Hparagraphs]. now intros p [_ Hp].
  - eapply Forall_impl; [|exact Hparagraphs]. now intros p [Hp _].
Qed.

(** C2, as the code has it. When the service fails on every call the
    translator does not raise, and it returns the text unchanged if the
    target language is ['en'], if the text is empty or whitespace only, if
    the text has at most 250 characters, or if each of its paragraphs has at
    most 250 characters and is not blank. In the case that is left, a text of
    more than 250 characters that is not blank, with a target language other
    than ['en'], it returns the chunks that are not blank, each unchanged,
    joined by blank lines. *)
Theorem translate_down_falls_back_by_chunk
    (service : list request -> request -> reply)
    (text target_language : str) (w : world) :
  fails_always service ->
  exists out w',
    translate_text_smart service text target_language w = (Ret out, w')
    /\ (target_language = en -> out = text)
    /\ (whitespace_only text = true -> out = text)
    /\ (List.length text <= 250 -> out = text)
    /\ (Forall (fun paragraph =>
                  List.length paragraph <= 250
                  /\ truthy (strip paragraph) = true)
               (split blank_line text) -> out = text)
    /\ (250 < List.length text -> target_language <> en ->
        whitespace_only text = false ->
        out = join blank_line (nonblank_chunks text)).
Proof.
  intros Hdown.
  destruct (translate_text_smart_down service Hdown text target_language w)
    as (w' & Hrun).
  exists (untranslated text target_language), w'.
  split; [exact Hrun|]. unfold untranslated.
  split; [|split; [|split; [|split]]].
  - intros ->. reflexivity.
  - intros Hblank. rewrite truthy_strip, Hblank. cbn [negb].
    now rewrite orb_true_r.
  - intros Hshort. apply Nat.leb_le in Hshort. rewrite Hshort.
    now destruct (_ || _).
  - intros Hparagraphs. rewrite (short_paragraphs_rejoined _ Hparagraphs).
    destruct (_ || _); [reflexivity|]. now destruct (_ <=? _).
  - intros Hlong Hlanguage Htext.
    apply Nat.leb_gt in Hlong. rewrite Hlong, truthy_strip, Htext.
    destruct (str_eqb target_language en) eqn:Hen; [|reflexivity].
    apply str_eqb_eq in Hen. contradiction.
Qed.

Lemma always_down_fails : fails_always always_down.
Proof. intros history r. reflexivity. Qed.

Lemma translate_down_falls_back_by_chunk_witness :
  fails_always always_down /\
  exists out w',
    translate_text_smart always_down resume_response hi fresh_world
    = (Ret out, w')
    /\ out = resume_response.
Proof.
  split; [exact always_down_fails|].
  destruct (translate_down_falls_back_by_chunk always_down resume_response hi
              fresh_world always_down_fails)
    as (out & w' & Hrun & _ & _ & _ & Hparagraphs & _).
  exists out, w'. split; [exact Hrun|].
  apply Hparagraphs. vm_compute.
  repeat (constructor; [split; [lia | reflexivity]|]). constructor.
Defined.

(** C2, as the specification has it, fails: a paragraph of 301 characters
    with a bullet in it comes back cut in two at the bullet, with a blank
    line in between. *)
Lemma translate_down_cuts_long_paragraph :
  fails_always always_down
  /\ fst (translate_text_smart always_down long_bullet_paragraph hi fresh_world)
     = Ret (repeat 97%N 200 ++ blank_line ++ bullet :: repeat 98%N 100)
  /\ fst (translate_text_smart always_down long_bullet_paragraph hi fresh_world)
     <> Ret long_bullet_paragraph.
Proof.
  split; [exact always_down_fails|].
  split; [vm_compute; reflexivity|].
  intros Hsame.
  apply (f_equal (fun r => match r with
                           | Ret out => nth 200 out 0%N
                           | Raise _ => 0%N
                           end)) in Hsame.
  vm_compute in Hsame. discriminate Hsame.
Qed.

(** ** A resume question when the service fails *)

(** C5, as the code has it. A message whose lower-cased text has a resume
    keyword and no keyword of the five intents tried before it, asked in
    Hindi while the service fails on every call, is answered with the
    English resume text unchanged, and its suggestions are the four resume
    suggestions. *)
Theorem resume_falls_back_to_english (lower : str -> str)
    (service : list request -> request -> reply)
    (user_message ai_response : str) (w : world) :
  fails_always service ->
  any_in resume_words (lower user_message) = true ->
  any_in greeting_words (lower user_message) = false ->
  any_in salary_words (lower user_message) = false ->
  any_in skills_words (lower user_message) = false ->
  any_in interview_words (lower user_message) = false ->
  any_in job_words (lower user_message) = false ->
  fst (get_ai_response lower service user_message hi w) = Ret resume_response
  /\ generate_smart_suggestions lower user_message ai_response hi
     = resume_suggestions
  /\ List.length resume_suggestions = 4.
Proof.
  intros Hdown Hresume Hgreeting Hsalary Hskills Hinterview Hjob.
  assert (Hintent : detect_intent_multilingual lower user_message = Resume).
  { unfold detect_intent_multilingual.
    now rewrite Hgreeting, Hsalary, Hskills, Hinterview, Hjob, Hresume. }
  split; [|split].
  - unfold get_ai_response. rewrite Hintent.
    cbn [english_response]. change (negb (str_eqb hi en)) with true.
    cbv iota. unfold try_except.
    destruct (translate_text_smart_down service Hdown resume_response hi w)
      as (w' & Hrun).
    assert (Hout : untranslated resume_response hi = resume_response)
      by (vm_compute; reflexivity).
    rewrite Hrun, Hout. reflexivity.
  - unfold generate_smart_suggestions. now rewrite Hintent.
  - reflexivity.
Qed.

Lemma resume_falls_back_to_english_witness :
  fails_always always_down /\
  any_in resume_words (ascii_lower (utf8 "मेरा रिज्यूमे")) = true /\
  fst (get_ai_response ascii_lower always_down (utf8 "मेरा रिज्यूमे") hi
         fresh_world) = Ret resume_response.
Proof.
  split; [exact always_down_fails|].
  split; [vm_compute; reflexivity|].
  apply (resume_falls_back_to_english ascii_lower always_down
           (utf8 "मेरा रिज्यूमे") [] fresh_world);
    solve [exact always_down_fails | vm_compute; reflexivity].
Defined.

(** C5, as the specification has it, fails: a Hindi message with the resume
    keyword and a greeting before it is a greeting, so neither the response
    nor the suggestions are those of the resume. *)
Lemma greeting_before_resume_keyword :
  fails_always always_down
  /\ existsb (str_eqb (utf8 "रिज्यूमे")) resume_words = true
  /\ contains (utf8 "रिज्यूमे") (utf8 "नमस्ते, मेरा रिज्यूमे") = true
  /\ ascii_lower (utf8 "नमस्ते, मेरा रिज्यूमे") = utf8 "नमस्ते, मेरा रिज्यूमे"
  /\ fst (get_ai_response ascii_lower always_down
            (utf8 "नमस्ते, मेरा रिज्यूमे") hi fresh_world)
     = Ret greeting_response
  /\ fst (get_ai_response ascii_lower always_down
            (utf8 "नमस्ते, मेरा रिज्यूमे") hi fresh_world)
     <> Ret resume_response
  /\ generate_smart_suggestions ascii_lower (utf8 "नमस्ते, मेरा रिज्यूमे")
       greeting_response hi
     <> resume_suggestions.
Proof.
  split; [exact always_down_fails|].
  repeat (split; [vm_compute; reflexivity|]).
  split; vm_compute; discriminate.
Qed.

(** ** A language the translator has no code for *)

Section Requests.

Variable service : list request -> request -> reply.

(** [translate_single_chunk] returns, whatever the service does, and has
    sent one request if its text is not blank. *)
Lemma translate_single_chunk_sends (text target : str) (w : world) :
  exists out,
    translate_single_chunk service text target w
    = (Ret out,
       if truthy (strip text) then sent (request_for target text) w else w).
Proof.
  unfold translate_single_chunk, try_except, request_for.
  destruct (strip text) as [|c rest] eqn:Hstrip; cbn [List.length Nat.eqb truthy].
  - unfold ret. eauto.
  - unfold bind, requests_get.
    destruct (service (calls w) {| q := c :: rest; target_code := target |})
      as [e|status body]; [unfold ret; eauto|].
    cbn [fst snd]. destruct (status =? 200)%N; [|unfold ret; eauto].
    destruct body as [e|[translated|]]; cbn; unfold ret; eauto.
Qed.

Lemma translate_chunks_sends (target : str) (chunks : list str) :
  forall translated_parts w,
  exists out w',
    translate_chunks service chunks target translated_parts w = (Ret out, w')
    /\ calls w'
       = calls w
         ++ map (request_for target)
                (filter (fun chunk => truthy (strip chunk)) chunks).
Proof.
  induction chunks as [|chunk rest IH]; intros parts w;
    cbn [translate_chunks filter map].
  - exists parts, w. split; [reflexivity | now rewrite app_nil_r].
  - destruct (truthy (strip chunk)) eqn:Hchunk; [|apply IH].
    unfold bind.
    destruct (translate_single_chunk_sends chunk target w) as (out & Hone).
    rewrite Hone, Hchunk.
    destruct (IH (parts ++ [out]) (sent (request_for target chunk) w))
      as (outs & w' & Hrest & Hcalls).
    exists outs, w'. split; [exact Hrest|].
    rewrite Hcalls. cbn [sent calls map]. now rewrite <- app_assoc.
Qed.

(** The requests a run of the translator sends: none on the identity path,
    one for a short text, one for each chunk that is not blank for a long
    text, in their order and all with the code [lang_map] gives. *)
Lemma translate_text_smart_sends (text target_language : str) (w : world) :
  calls (snd (translate_text_smart service text target_language w))
  = calls w
    ++ (if str_eqb target_language en || negb (truthy (strip text)) then []
        else map (request_for (get lang_map target_language en))
                 (if List.length text <=? 250 then [text]
                  else nonblank_chunks text)).
Proof.
  unfold translate_text_smart.
  destruct (str_eqb target_language en) eqn:Hen;
    [cbn; now rewrite app_nil_r|].
  destruct (truthy (strip text)) eqn:Htext;
    [|cbn; now rewrite app_nil_r].
  cbn [orb negb]. unfold try_except. cbv zeta.
  destruct (List.length text <=? 250).
  - destruct (translate_single_chunk_sends text
                (get lang_map target_language en) w) as (out & Hone).
    rewrite Hone, Htext. reflexivity.
  - unfold bind.
    destruct (translate_chunks_sends (get lang_map target_language en)
                (split_chunks text) [] w) as (outs & w' & Hrun & Hcalls).
    rewrite Hrun. exact Hcalls.
Qed.

End Requests.

(** A language that is none of the four of [lang_map] is sent as ['en']: a
    text that is not blank goes to the service with target ['en'], once if
    it is short, once for each chunk that is not blank if it is long. *)
Lemma unknown_language_is_sent_as_english
    (service : list request -> request -> reply)
    (text target_language : str) (w : world) :
  target_language <> en -> target_language <> hi ->
  target_language <> pa -> target_language <> kn ->
  whitespace_only text = false ->
  calls (snd (translate_text_smart service text target_language w))
  = calls w
    ++ map (request_for en)
           (if List.length text <=? 250 then [text] else nonblank_chunks text).
Proof.
  intros Hen Hhi Hpa Hkn Htext.
  assert (Hneq : forall code, target_language <> code ->
                              str_eqb code target_language = false).
  { intros code Hcode. destruct (str_eqb code target_language) eqn:Heq;
      [|reflexivity]. apply str_eqb_eq in Heq. congruence. }
  assert (Hnot_en : str_eqb target_language en = false).
  { destruct (str_eqb target_language en) eqn:Heq; [|reflexivity].
    apply str_eqb_eq in Heq. congruence. }
  rewrite translate_text_smart_sends, Hnot_en, truthy_strip, Htext.
  cbn [negb orb]. unfold lang_map. cbn [get].
  now rewrite (Hneq hi Hhi), (Hneq pa Hpa), (Hneq kn Hkn), (Hneq en Hen).
Qed.



(** ** Further properties of the classifier *)

Lemma startswith_prefix (w rest : str) : startswith w (w ++ rest) = true.
Proof.
  induction w as [|c w IH]; [reflexivity|].
  simpl. now rewrite N.eqb_refl, IH.
Qed.

Lemma startswith_longer (w s after : str) :
  startswith w s = true -> startswith w (s ++ after) = true.
Proof.
  revert s; induction w as [|c w IH]; intros [|x s]; simpl;
    try reflexivity; try discriminate.
  intros H. apply andb_true_iff in H as [Hc Hw].
  now rewrite Hc, IH.
Qed.

Lemma contains_longer (w s after : str) :
  contains w s = true -> contains w (s ++ after) = true.
Proof.
  induction s as [|x s IH].
  - destruct w; [destruct after; reflexivity|discriminate].
  - cbn [contains app]. intros H. apply orb_true_iff in H as [H|H].
    + change (x :: s ++ after) with ((x :: s) ++ after).
      now rewrite startswith_longer.
    + rewrite IH by assumption. apply orb_true_r.
Qed.

Lemma contains_later (w before s : str) :
  contains w s = true -> contains w (before ++ s) = true.
Proof.
  intros H. induction before as [|x before IH]; [exact H|].
  cbn [contains app]. rewrite IH. apply orb_true_r.
Qed.

Lemma contains_inside (w before s after : str) :
  contains w s = true -> contains w (before ++ s ++ after) = true.
Proof.
  intros H. apply contains_later. now apply contains_longer.
Qed.

Lemma contains_self (w : str) : contains w w = true.
Proof.
  destruct w as [|c w]; [reflexivity|].
  cbn [contains]. rewrite <- (app_nil_r (c :: w)) at 2.
  now rewrite startswith_prefix.
Qed.

Lemma any_in_inside (words : list str) (before s after : str) :
  any_in words s = true -> any_in words (before ++ s ++ after) = true.
Proof.
  unfold any_in. intros H. apply existsb_exists in H as (w & Hw & Hin).
  apply existsb_exists. exists w. split; [exact Hw|].
  now apply contains_inside.
Qed.

Lemma any_in_outside (words : list str) (before s after : str) :
  any_in words (before ++ s ++ after) = false -> any_in words s = false.
Proof.
  intros H. destruct (any_in words s) eqn:Hs; [|reflexivity].
  apply (any_in_inside words before s after) in Hs. congruence.
Qed.

(** X1. Text around a message can change its intent only towards the front
    of the priority order: the intent of the longer message is tried no later
    than the intent of the message inside it. *)
Theorem surrounding_text_only_raises_priority (lower : str -> str)
    (before message after : str) :
  embeds lower before message after ->
  rank (detect_intent_multilingual lower (before ++ message ++ after))
  <= rank (detect_intent_multilingual lower message).
Proof.
  intros (before' & after' & Hlower). unfold detect_intent_multilingual.
  rewrite Hlower.
  repeat match goal with
         | |- context [any_in ?ws (before' ++ lower message ++ after')] =>
             destruct (any_in ws (before' ++ lower message ++ after')) eqn:Hbig;
             [ repeat match goal with
                      | |- context [any_in ?vs (lower message)] =>
                          destruct (any_in vs (lower message))
                      end; cbn [rank]; lia
             | apply any_in_outside in Hbig; rewrite Hbig; clear Hbig ]
         end.
  reflexivity.
Qed.

Lemma ascii_lower_embeds (before message after : str) :
  embeds ascii_lower before message after.
Proof.
  exists (ascii_lower before), (ascii_lower after).
  unfold ascii_lower. now rewrite !map_app.
Qed.

Lemma surrounding_text_only_raises_priority_witness :
  rank (detect_intent_multilingual ascii_lower
          (utf8 "Hello, " ++ utf8 "what salary" ++ utf8 " can I ask for?"))
  <= rank (detect_intent_multilingual ascii_lower (utf8 "what salary")).
Proof.
  apply (surrounding_text_only_raises_priority ascii_lower
           (utf8 "Hello, ") (utf8 "what salary") (utf8 " can I ask for?")).
  apply ascii_lower_embeds.
Defined.

Lemma detect_intent_by_lowered (lower1 lower2 : str -> str) (m1 m2 : str) :
  lower1 m1 = lower2 m2 ->
  detect_intent_multilingual lower1 m1 = detect_intent_multilingual lower2 m2.
Proof.
  intros H. unfold detect_intent_multilingual. now rewrite H.
Qed.

(** X2. No keyword is out of reach: a keyword of any of the six lists, sent
    as the whole message, gets the intent of its own list; no list tried
    earlier has a keyword inside it. *)
Theorem every_keyword_reaches_its_intent (lower : str -> str)
    (rule : intent * list str) (word : str) :
  In rule priority_order -> In word (snd rule) -> lower word = word ->
  detect_intent_multilingual lower word = fst rule.
Proof.
  intros Hrule Hword Hlower.
  rewrite (detect_intent_by_lowered lower (fun s => s) word word Hlower).
  assert (Hall : forallb
                   (fun r => forallb
                      (fun w => intent_eqb
                                  (detect_intent_multilingual (fun s => s) w)
                                  (fst r))
                      (snd r))
                   priority_order = true) by (vm_compute; reflexivity).
  rewrite forallb_forall in Hall. specialize (Hall rule Hrule).
  rewrite forallb_forall in Hall. specialize (Hall word Hword).
  destruct (detect_intent_multilingual (fun s => s) word), (fst rule);
    try reflexivity; discriminate Hall.
Qed.

Lemma every_keyword_reaches_its_intent_witness :
  detect_intent_multilingual ascii_lower (utf8 "ਇੰਟਰਵਿਊ") = Interview.
Proof.
  apply (every_keyword_reaches_its_intent ascii_lower
           (Interview, interview_words) (utf8 "ਇੰਟਰਵਿਊ")).
  - vm_compute. do 3 right. left. reflexivity.
  - vm_compute. do 9 right. left. reflexivity.
  - reflexivity.
Defined.

(** ** The voice of [/api/speak] *)

(** X3. Speech is synthesised with the Hindi voice for the codes ['hi'],
    ['pa'] and ['kn'] and with the English voice for every other code and
    for a request without one, while the file name carries the code as it
    was sent; an exception of the synthesiser becomes a 500 answer. *)
Theorem speech_voice_is_hindi_or_english
    (gtts : str -> str -> result (list N)) (data : speak_request) :
  let language := from_option (speak_language data) en in
  let voice :=
    if str_eqb language hi || str_eqb language pa || str_eqb language kn
    then hi else en in
  text_to_speech gtts data
  = match gtts (from_option (text data) []) voice with
    | Ret audio =>
        AudioFile (utf8 "speech_" ++ language ++ utf8 ".mp3")
                  (utf8 "audio/mpeg") audio
    | Raise e => SpeakFailure 500 e
    end.
Proof.
  cbv zeta. unfold text_to_speech. cbv zeta.
  set (language := from_option (speak_language data) en).
  assert (Hvoice :
            tts_lang (languages_get LANGUAGES language english_config)
            = if str_eqb language hi || str_eqb language pa
                 || str_eqb language kn then hi else en).
  { unfold LANGUAGES. cbn [languages_get].
    destruct (str_eqb en language) eqn:Hen.
    - apply str_eqb_eq in Hen. rewrite <- Hen. reflexivity.
    - destruct (str_eqb hi language) eqn:Hhi.
      + apply str_eqb_eq in Hhi. rewrite <- Hhi. reflexivity.
      + destruct (str_eqb pa language) eqn:Hpa.
        * apply str_eqb_eq in Hpa. rewrite <- Hpa. reflexivity.
        * destruct (str_eqb kn language) eqn:Hkn.
          -- apply str_eqb_eq in Hkn. rewrite <- Hkn. reflexivity.
          -- assert (Hsym : forall a b, str_eqb a b = false ->
                                        str_eqb b a = false).
             { intros a b Hab. destruct (str_eqb b a) eqn:Hba;
                 [|reflexivity]. apply str_eqb_eq in Hba. subst.
               now rewrite str_eqb_refl in Hab. }
             rewrite (Hsym _ _ Hhi), (Hsym _ _ Hpa), (Hsym _ _ Hkn).
             reflexivity. }
  rewrite Hvoice. reflexivity.
Qed.


(** ** The clean-up of the message *)

Lemma split_words_blank (s : str) :
  whitespace_only s = true -> split_words s None = [].
Proof.
  induction s as [|c s IH]; [reflexivity|].
  cbn [whitespace_only forallb split_words]. intros H.
  apply andb_true_iff in H as [Hc Hs]. rewrite Hc. now apply IH.
Qed.

Lemma split_words_some_nonempty (s : str) :
  forall word, split_words s (Some word) <> [].
Proof.
  induction s as [|c s IH]; intros word; cbn [split_words]; [discriminate|].
  destruct (isspace c); [discriminate | apply IH].
Qed.

Lemma split_words_none_empty (s : str) :
  split_words s None = [] -> whitespace_only s = true.
Proof.
  induction s as [|c s IH]; [reflexivity|].
  cbn [whitespace_only forallb split_words].
  destruct (isspace c); [exact IH|].
  intros H. now apply split_words_some_nonempty in H.
Qed.

Lemma split_words_trailing_blank (s blank : str) :
  whitespace_only blank = true ->
  forall word, split_words (s ++ blank) word = split_words s word.
Proof.
  intros Hblank. induction s as [|c s IH]; intros word.
  - cbn [app split_words]. destruct word as [w|].
    + destruct blank as [|b blank]; [reflexivity|].
      cbn [whitespace_only forallb] in Hblank.
      apply andb_true_iff in Hblank as [Hb Hrest].
      cbn [split_words]. rewrite Hb. now rewrite split_words_blank.
    + now apply split_words_blank.
  - cbn [app split_words]. destruct (isspace c), word; now rewrite IH.
Qed.

Lemma split_words_lstrip (s : str) :
  split_words (lstrip s) None = split_words s None.
Proof.
  induction s as [|c s IH]; [reflexivity|].
  cbn [lstrip split_words]. destruct (isspace c) eqn:Hc; [exact IH|].
  cbn [split_words]. now rewrite Hc.
Qed.

Lemma lstrip_cuts_blank (s : str) :
  exists blank, whitespace_only blank = true /\ s = blank ++ lstrip s.
Proof.
  induction s as [|c s (blank & Hblank & Hs)]; [now exists []|].
  cbn [lstrip]. destruct (isspace c) eqn:Hc.
  - exists (c :: blank). split.
    + cbn [whitespace_only forallb]. now rewrite Hc.
    + cbn [app]. now rewrite <- Hs.
  - now exists [].
Qed.

Lemma rstrip_cuts_blank (s : str) :
  exists blank, whitespace_only blank = true /\ s = rstrip s ++ blank.
Proof.
  destruct (lstrip_cuts_blank (rev s)) as (blank & Hblank & Hs).
  exists (rev blank). split; [now rewrite whitespace_only_rev|].
  unfold rstrip. rewrite <- rev_app_distr, <- Hs. now rewrite rev_involutive.
Qed.

(** [strip] takes no word away. *)
Lemma split_whitespace_strip (s : str) :
  split_whitespace (strip s) = split_whitespace s.
Proof.
  unfold split_whitespace, strip.
  destruct (rstrip_cuts_blank (lstrip s)) as (blank & Hblank & Hs).
  rewrite <- (split_words_lstrip s).
  transitivity (split_words (rstrip (lstrip s) ++ blank) None).
  - symmetry. now apply split_words_trailing_blank.
  - now rewrite <- Hs.
Qed.

Lemma split_words_run (w s : str) :
  forallb (fun c => negb (isspace c)) w = true ->
  forall word, split_words (w ++ s) (Some word)
               = split_words s (Some (word ++ w)).
Proof.
  induction w as [|c w IH]; intros Hw word.
  - now rewrite app_nil_r.
  - cbn [forallb] in Hw. apply andb_true_iff in Hw as [Hc Hw].
    apply negb_true_iff in Hc. cbn [app split_words]. rewrite Hc.
    rewrite IH by assumption. now rewrite <- app_assoc.
Qed.

Lemma split_words_word (w s : str) :
  is_word w = true -> split_words (w ++ s) None = split_words s (Some w).
Proof.
  unfold is_word. intros H. apply andb_true_iff in H as [Hne Hw].
  destruct w as [|c w]; [discriminate|].
  cbn [forallb] in Hw. apply andb_true_iff in Hw as [Hc Hw].
  apply negb_true_iff in Hc. cbn [app split_words]. rewrite Hc.
  now rewrite split_words_run.
Qed.

(** Splitting what was joined with single spaces gives the words back. *)
Lemma split_join_words (words : list str) :
  Forall (fun w => is_word w = true) words ->
  split_whitespace (join [32%N] words) = words.
Proof.
  unfold split_whitespace. induction 1 as [|w rest Hw Hrest IH];
    [reflexivity|].
  destruct rest as [|w2 rest].
  - cbn [join]. rewrite <- (app_nil_r w) at 1.
    now rewrite split_words_word.
  - rewrite join_cons, split_words_word by assumption.
    cbn [app split_words]. change (isspace 32) with true. cbv iota.
    now rewrite IH.
Qed.

Lemma split_words_are_words (s : str) :
  forall word,
    match word with
    | Some w => is_word w = true
    | None => True
    end ->
    Forall (fun w => is_word w = true) (split_words s word).
Proof.
  induction s as [|c s IH]; intros word Hword; cbn [split_words].
  - destruct word; [now constructor | constructor].
  - destruct (isspace c) eqn:Hc.
    + destruct word; [constructor; [assumption|] |]; now apply IH.
    + destruct word as [w|]; apply IH.
      * unfold is_word in *. apply andb_true_iff in Hword as [Hne Hw].
        apply andb_true_iff. split; [now destruct w|].
        rewrite forallb_app, Hw. cbn [forallb]. now rewrite Hc.
      * unfold is_word. cbn. now rewrite Hc.
Qed.

Lemma split_whitespace_words (s : str) :
  Forall (fun w => is_word w = true) (split_whitespace s).
Proof. now apply split_words_are_words. Qed.

(** X4. The clean-up [' '.join(s.split())] keeps the words of the message,
    each of them non-empty and free of whitespace, in their order, and
    cleaning a cleaned message changes nothing. *)
Theorem clean_keeps_the_words (s : str) :
  split_whitespace (clean s) = split_whitespace s
  /\ Forall (fun w => is_word w = true) (split_whitespace s)
  /\ clean (clean s) = clean s
  /\ clean (strip s) = clean s.
Proof.
  assert (Hwords : split_whitespace (clean s) = split_whitespace s).
  { unfold clean. apply split_join_words, split_whitespace_words. }
  repeat split.
  - exact Hwords.
  - apply split_whitespace_words.
  - unfold clean at 1. now rewrite Hwords.
  - unfold clean. now rewrite split_whitespace_strip.
Qed.

Lemma whitespace_only_no_words (s : str) :
  whitespace_only s = match split_whitespace s with [] => true | _ => false end.
Proof.
  destruct (split_whitespace s) eqn:Hs.
  - now apply split_words_none_empty.
  - destruct (whitespace_only s) eqn:Hblank; [|reflexivity].
    apply split_words_blank in Hblank. unfold split_whitespace in Hs.
    congruence.
Qed.

(** ** More on the chat handler *)

Section ChatRuns.

Variable lower : str -> str.
Variable service : list request -> request -> reply.
Variable isoformat : nat -> str.
Variables db_connects db_commits : world -> bool.

(** The handler reads the message only through its words. *)
Lemma chat_by_words (data : chat_request) (w : world) :
  chat lower service isoformat db_connects db_commits data w
  = match split_whitespace (from_option (message data) []) with
    | [] => (Failure 400 empty_message_received, w)
    | words =>
        let user_message := join [32%N] words in
        match
          (bot_response <- get_ai_response lower service user_message
                             (from_option (language data) en) ;;
           let suggestions :=
             generate_smart_suggestions lower user_message bot_response
               (from_option (language data) en) in
           _ <- save_chat isoformat db_connects db_commits
                  user_message bot_response ;;
           stamp <- now isoformat ;;
           ret (Success bot_response suggestions
                        (from_option (language data) en) stamp)) w
        with
        | (Ret answer, w') => (answer, w')
        | (Raise e, w') => (Failure 500 e, w')
        end
    end.
Proof.
  unfold chat. rewrite truthy_strip, whitespace_only_no_words.
  rewrite split_whitespace_strip.
  now destruct (split_whitespace (from_option (message data) [])).
Qed.

End ChatRuns.

(** X5. Two messages with the same words, however the whitespace between
    and around them differs, get the same answer and leave the same world. *)
Theorem chat_reads_only_the_words (lower : str -> str)
    (service : list request -> request -> reply) (isoformat : nat -> str)
    (db_connects db_commits : world -> bool)
    (message1 message2 : str) (code : option str) (w : world) :
  split_whitespace message1 = split_whitespace message2 ->
  chat lower service isoformat db_connects db_commits
       {| message := Some message1; language := code |} w
  = chat lower service isoformat db_connects db_commits
         {| message := Some message2; language := code |} w.
Proof.
  intros Hwords. rewrite !chat_by_words.
  cbn [App.message App.language from_option]. now rewrite Hwords.
Qed.

Lemma chat_reads_only_the_words_witness :
  chat ascii_lower always_down (fun _ => []) (fun _ => true) (fun _ => true)
       {| message := Some (utf8 "  what   salary ?");
          language := Some hi |} fresh_world
  = chat ascii_lower always_down (fun _ => []) (fun _ => true) (fun _ => true)
         {| message := Some (utf8 "what salary ?  ");
            language := Some hi |} fresh_world.
Proof.
  apply (chat_reads_only_the_words ascii_lower always_down (fun _ => [])
           (fun _ => true) (fun _ => true)
           (utf8 "  what   salary ?") (utf8 "what salary ?  ")
           (Some hi) fresh_world).
  reflexivity.
Defined.


(** ** What a run of the handlers leaves behind *)

Section Runs.

Variable lower : str -> str.
Variable service : list request -> request -> reply.

Lemma translate_chunks_keeps_table (target : str) (chunks : list str) :
  forall translated_parts w,
  exists out w',
    translate_chunks service chunks target translated_parts w = (Ret out, w')
    /\ chats w' = chats w /\ ticks w' = ticks w.
Proof.
  induction chunks as [|chunk rest IH]; intros parts w;
    cbn [translate_chunks].
  - exists parts, w. now repeat split.
  - destruct (truthy (strip chunk)) eqn:Hchunk; [|apply IH].
    unfold bind.
    destruct (translate_single_chunk_sends service chunk target w)
      as (out & Hone).
    rewrite Hone, Hchunk.
    destruct (IH (parts ++ [out]) (sent (request_for target chunk) w))
      as (outs & w' & Hrest & Hchats & Hticks).
    exists outs, w'. now repeat split.
Qed.

(** The translator touches neither the [chats] table nor the clock. *)
Lemma translate_text_smart_keeps_table (text target_language : str)
    (w : world) :
  chats (snd (translate_text_smart service text target_language w)) = chats w
  /\ ticks (snd (translate_text_smart service text target_language w))
     = ticks w.
Proof.
  unfold translate_text_smart.
  destruct (str_eqb target_language en || negb (truthy (strip text)));
    [now split|].
  unfold try_except. cbv zeta.
  destruct (List.length text <=? 250).
  - destruct (translate_single_chunk_sends service text
                (get lang_map target_language en) w) as (out & Hone).
    rewrite Hone. now destruct (truthy (strip text)).
  - unfold bind.
    destruct (translate_chunks_keeps_table (get lang_map target_language en)
                (split_chunks text) [] w)
      as (outs & w' & Hrun & Hchats & Hticks).
    rewrite Hrun. now split.
Qed.

(** The response is what the translator makes of the English text of the
    detected intent; for ['en'] that is the text itself. *)
Lemma get_ai_response_is_translation (user_message language : str)
    (w : world) :
  get_ai_response lower service user_message language w
  = translate_text_smart service
      (english_response (detect_intent_multilingual lower user_message)
                        user_message)
      language w.
Proof.
  unfold get_ai_response. cbv zeta.
  destruct (str_eqb language en) eqn:Hen; cbn [negb].
  - unfold translate_text_smart. now rewrite Hen.
  - unfold try_except.
    destruct (translate_text_smart_returns service
                (english_response
                   (detect_intent_multilingual lower user_message)
                   user_message) language w) as (out & w' & Hrun).
    now rewrite Hrun.
Qed.

Variable isoformat : nat -> str.
Variables db_connects db_commits : world -> bool.

(** A run of [chat] on a message that is not blank, step by step. *)
Lemma chat_run (data : chat_request) (w : world) :
  whitespace_only (from_option (message data) []) = false ->
  let user_message := clean (from_option (message data) []) in
  let language := from_option (language data) en in
  let intent := detect_intent_multilingual lower user_message in
  exists bot_response w1,
    translate_text_smart service (english_response intent user_message)
      language w = (Ret bot_response, w1)
    /\ chat lower service isoformat db_connects db_commits data w
       = (Success bot_response (suggestions_for intent) language
            (isoformat (if db_connects w1 then S (ticks w1) else ticks w1)),
          if db_connects w1 then
            if db_commits (ticked w1) then
              ticked (stored {| user_message := user_message;
                                bot_response := bot_response;
                                timestamp := isoformat (ticks w1) |}
                             (ticked w1))
            else ticked (ticked w1)
          else ticked w1).
Proof.
  intros Hmessage. cbv zeta.
  destruct (translate_text_smart_returns service
              (english_response
                 (detect_intent_multilingual lower
                    (clean (from_option (message data) [])))
                 (clean (from_option (message data) [])))
              (from_option (language data) en) w) as (bot & w1 & Hrun).
  exists bot, w1. split; [exact Hrun|].
  unfold chat. rewrite truthy_strip, Hmessage. cbn [negb].
  rewrite split_whitespace_strip.
  fold (clean (from_option (message data) [])).
  unfold bind at 1. rewrite get_ai_response_is_translation, Hrun.
  unfold bind, save_chat, now, ret, generate_smart_suggestions.
  destruct (db_connects w1); [destruct (db_commits (ticked w1))|];
    reflexivity.
Qed.

End Runs.

Lemma chat_rejects_blank_message_table (lower : str -> str)
    (service : list request -> request -> reply) (isoformat : nat -> str)
    (db_connects db_commits : world -> bool)
    (data : chat_request) (w : world) :
  whitespace_only (from_option (message data) []) = true ->
  snd (chat lower service isoformat db_connects db_commits data w) = w.
Proof.
  intros Hblank. unfold chat. now rewrite (strip_whitespace _ Hblank).
Qed.

(** X6. Take a message of well-formed text that is not blank, and a
    translation service each of whose replies is an exception, a status
    other than 200, a body that is no JSON, a document without
    [translatedText], or one whose [translatedText] is a string (the replies
    [reply] has). Then the request is answered with the success document,
    whatever the database does: its response is what the translator returns
    for the English text of the intent of the cleaned message, its
    suggestions are those of that intent, and its language is the code as
    sent (['en'] if absent), be it one the translator knows or not. *)
Theorem chat_answers_every_message (lower : str -> str)
    (service : list request -> request -> reply) (isoformat : nat -> str)
    (db_connects db_commits : world -> bool)
    (data : chat_request) (w : world) :
  whitespace_only (from_option (message data) []) = false ->
  exists bot_response stamp,
    fst (chat lower service isoformat db_connects db_commits data w)
    = Success bot_response
        (suggestions_for
           (detect_intent_multilingual lower
              (clean (from_option (message data) []))))
        (from_option (language data) en) stamp
    /\ fst (translate_text_smart service
              (english_response
                 (detect_intent_multilingual lower
                    (clean (from_option (message data) [])))
                 (clean (from_option (message data) [])))
              (from_option (language data) en) w)
       = Ret bot_response.
Proof.
  intros Hmessage.
  destruct (chat_run lower service isoformat db_connects db_commits data w
              Hmessage) as (bot & w1 & Hrun & Hchat).
  rewrite Hchat, Hrun. exists bot. eexists. split; reflexivity.
Qed.

Lemma chat_answers_every_message_witness :
  exists bot_response stamp,
    fst (chat ascii_lower always_down (fun _ => []) (fun _ => false)
           (fun _ => false)
           {| message := Some (utf8 "xyz"); language := Some (utf8 "fr") |}
           fresh_world)
    = Success bot_response (suggestions_for Default) (utf8 "fr") stamp.
Proof.
  destruct (chat_answers_every_message ascii_lower always_down (fun _ => [])
              (fun _ => false) (fun _ => false)
              {| message := Some (utf8 "xyz"); language := Some (utf8 "fr") |}
              fresh_world eq_refl) as (bot & stamp & Hchat & _).
  exists bot, stamp. exact Hchat.
Defined.

(** X7. The [chats] table only grows, and by at most one row per request:
    whatever the request, the translation service and the database do, the
    table after it is the old one, or the old one followed by one row that
    holds the cleaned message and the very response the answer carries. *)
Theorem chat_appends_at_most_one_row (lower : str -> str)
    (service : list request -> request -> reply) (isoformat : nat -> str)
    (db_connects db_commits : world -> bool)
    (data : chat_request) (w : world) :
  let run := chat lower service isoformat db_connects db_commits data w in
  chats (snd run) = chats w
  \/ exists bot_response suggestions language stamp stored_at,
       fst run = Success bot_response suggestions language stamp
       /\ chats (snd run)
          = chats w
            ++ [ {| user_message := clean (from_option (message data) []);
                    bot_response := bot_response;
                    timestamp := stored_at |} ].
Proof.
  cbv zeta.
  destruct (whitespace_only (from_option (message data) [])) eqn:Hmessage.
  - left. now rewrite chat_rejects_blank_message_table.
  - destruct (chat_run lower service isoformat db_connects db_commits data w
                Hmessage) as (bot & w1 & Hrun & Hchat).
    destruct (translate_text_smart_keeps_table service
                (english_response
                   (detect_intent_multilingual lower
                      (clean (from_option (message data) [])))
                   (clean (from_option (message data) [])))
                (from_option (language data) en) w) as (Hchats & _).
    rewrite Hrun in Hchats. cbn [snd] in Hchats.
    rewrite Hchat. cbn [fst snd].
    destruct (db_connects w1); [destruct (db_commits (ticked w1))|].
    + right. exists bot. do 4 eexists. split; [reflexivity|].
      cbn [ticked stored chats]. now rewrite Hchats.
    + left. exact Hchats.
    + left. exact Hchats.
Qed.


Lemma translate_text_smart_english
    (service : list request -> request -> reply) (text : str) (w : world) :
  translate_text_smart service text en w = (Ret text, w).
Proof. unfold translate_text_smart. reflexivity. Qed.

(** X8. A request in English, or without a language, sends nothing to the
    translation service, and a message that is not blank is answered with
    the English text of its intent as it stands. *)
Theorem chat_in_english_sends_nothing (lower : str -> str)
    (service : list request -> request -> reply) (isoformat : nat -> str)
    (db_connects db_commits : world -> bool)
    (data : chat_request) (w : world) :
  from_option (language data) en = en ->
  calls (snd (chat lower service isoformat db_connects db_commits data w))
  = calls w
  /\ (whitespace_only (from_option (message data) []) = false ->
      exists stamp,
        fst (chat lower service isoformat db_connects db_commits data w)
        = Success
            (english_response
               (detect_intent_multilingual lower
                  (clean (from_option (message data) [])))
               (clean (from_option (message data) [])))
            (suggestions_for
               (detect_intent_multilingual lower
                  (clean (from_option (message data) []))))
            en stamp).
Proof.
  intros Hen.
  destruct (whitespace_only (from_option (message data) [])) eqn:Hmessage.
  - split; [|discriminate].
    now rewrite chat_rejects_blank_message_table.
  - destruct (chat_run lower service isoformat db_connects db_commits data w
                Hmessage) as (bot & w1 & Hrun & Hchat).
    rewrite Hen in Hrun, Hchat.
    rewrite translate_text_smart_english in Hrun.
    injection Hrun as <- <-.
    rewrite Hchat. split.
    + cbn [snd]. destruct (db_connects w); [destruct (db_commits _)|];
        reflexivity.
    + intros _. eexists. reflexivity.
Qed.

Lemma chat_in_english_sends_nothing_witness :
  calls (snd (chat ascii_lower always_down (fun _ => []) (fun _ => true)
                (fun _ => true)
                {| message := Some (utf8 "salary?"); language := None |}
                fresh_world))
  = [].
Proof.
  apply (chat_in_english_sends_nothing ascii_lower always_down (fun _ => [])
           (fun _ => true) (fun _ => true)
           {| message := Some (utf8 "salary?"); language := None |}
           fresh_world).
  reflexivity.
Defined.

(** ** The text of the fallback answer *)

Lemma default_response_has_the_message (user_message : str) :
  contains (quoted user_message) (english_response Default user_message)
  = true.
Proof.
  cbn [english_response]. unfold default_response, lines.
  rewrite join_cons, <- !app_assoc.
  apply contains_inside, contains_self.
Qed.

(** X9. A request in English, or without a language, whose message is not
    blank and has no keyword in it, is answered with a response that holds
    the cleaned message between double quotes, character for character. *)
Theorem chat_in_english_echoes_unknown_message (lower : str -> str)
    (service : list request -> request -> reply) (isoformat : nat -> str)
    (db_connects db_commits : world -> bool)
    (data : chat_request) (w : world) :
  whitespace_only (from_option (message data) []) = false ->
  from_option (language data) en = en ->
  detect_intent_multilingual lower (clean (from_option (message data) []))
  = Default ->
  exists bot_response suggestions stamp,
    fst (chat lower service isoformat db_connects db_commits data w)
    = Success bot_response suggestions en stamp
    /\ contains (quoted (clean (from_option (message data) []))) bot_response
       = true.
Proof.
  intros Hmessage Hen Hintent.
  destruct (chat_run lower service isoformat db_connects db_commits data w
              Hmessage) as (bot & w1 & Hrun & Hchat).
  rewrite Hen in Hrun, Hchat. rewrite Hintent in Hrun, Hchat.
  rewrite translate_text_smart_english in Hrun.
  injection Hrun as <- <-.
  rewrite Hchat. do 3 eexists. split; [reflexivity|].
  apply default_response_has_the_message.
Qed.

Lemma chat_in_english_echoes_unknown_message_witness :
  exists bot_response suggestions stamp,
    fst (chat ascii_lower always_down (fun _ => []) (fun _ => true)
           (fun _ => true)
           {| message := Some (utf8 " <b>xyz</b>   42 "); language := None |}
           fresh_world)
    = Success bot_response suggestions en stamp
    /\ contains (quoted (utf8 "<b>xyz</b> 42")) bot_response = true.
Proof.
  apply (chat_in_english_echoes_unknown_message ascii_lower always_down
           (fun _ => []) (fun _ => true) (fun _ => true)
           {| message := Some (utf8 " <b>xyz</b>   42 "); language := None |}
           fresh_world); reflexivity.
Defined.

(** ** The translator when the service answers *)

Section ServiceAnswers.

Variable tr : request -> str.
Variable service : list request -> request -> reply.
Hypothesis answers : translates_with tr service.

Lemma translate_single_chunk_translated (text target : str) (w : world) :
  translate_single_chunk service text target w
  = if truthy (strip text)
    then (Ret (tr (request_for target text)),
          sent (request_for target text) w)
    else (Ret text, w).
Proof.
  unfold translate_single_chunk, try_except, request_for.
  destruct (strip text) as [|c rest] eqn:Hstrip;
    cbn [List.length Nat.eqb truthy]; [reflexivity|].
  unfold bind, requests_get. rewrite answers. reflexivity.
Qed.

Lemma translate_chunks_translated (target : str) (chunks : list str) :
  forall translated_parts w,
  exists w',
    translate_chunks service chunks target translated_parts w
    = (Ret (translated_parts
            ++ map (fun chunk => tr (request_for target chunk))
                   (filter (fun chunk => truthy (strip chunk)) chunks)), w').
Proof.
  induction chunks as [|chunk rest IH]; intros parts w;
    cbn [translate_chunks filter map].
  - rewrite app_nil_r. unfold ret. eauto.
  - destruct (truthy (strip chunk)) eqn:Hchunk; [|apply IH].
    unfold bind. rewrite translate_single_chunk_translated, Hchunk.
    destruct (IH (parts ++ [tr (request_for target chunk)])
                 (sent (request_for target chunk) w)) as (w' & Hrest).
    rewrite Hrest. cbn [map]. rewrite <- app_assoc. eauto.
Qed.

End ServiceAnswers.




(** ** What chunking keeps of a text *)

Lemma ink_app (a b : str) : ink (a ++ b) = ink a ++ ink b.
Proof. apply filter_app. Qed.

Lemma ink_blank (s : str) : whitespace_only s = true -> ink s = [].
Proof.
  induction s as [|c s IH]; [reflexivity|].
  cbn [whitespace_only forallb ink filter]. intros H.
  apply andb_true_iff in H as [Hc Hs]. unfold is_ink. rewrite Hc.
  now apply IH.
Qed.

Lemma ink_flush (chunks : list str) (current_chunk : str) :
  ink (List.concat (flush chunks current_chunk))
  = ink (List.concat chunks) ++ ink current_chunk.
Proof.
  unfold flush. rewrite truthy_strip.
  destruct (whitespace_only current_chunk) eqn:Hblank; cbn [negb].
  - now rewrite (ink_blank _ Hblank), app_nil_r.
  - rewrite concat_app, ink_app. cbn [List.concat]. now rewrite app_nil_r.
Qed.

Lemma ink_bullet_loop (parts : list str) :
  forall current_chunk chunks,
    ink (List.concat (bullet_loop parts current_chunk chunks))
    = ink (List.concat chunks) ++ ink current_chunk
      ++ ink (List.concat (map (cons bullet) parts)).
Proof.
  induction parts as [|part rest IH]; intros current chunks;
    cbn [bullet_loop map List.concat].
  - rewrite ink_flush. cbn [ink filter]. now rewrite app_nil_r.
  - destruct (_ <=? 250); rewrite IH.
    + rewrite (ink_app (bullet :: part)), (ink_app current).
      now rewrite <- !app_assoc.
    + rewrite ink_flush, (ink_app (bullet :: part)).
      now rewrite <- !app_assoc.
Qed.

Lemma ink_sentence_loop (sentences : list str) :
  forall current_chunk chunks,
    ink (List.concat (sentence_loop sentences current_chunk chunks))
    = ink (List.concat chunks) ++ ink current_chunk ++ ink (List.concat sentences).
Proof.
  induction sentences as [|sentence rest IH]; intros current chunks;
    cbn [sentence_loop List.concat].
  - rewrite ink_flush. cbn [ink filter]. now rewrite app_nil_r.
  - destruct (_ <=? 250); rewrite IH.
    + rewrite (ink_app sentence), (ink_app current).
      now rewrite <- !app_assoc.
    + rewrite ink_flush, (ink_app sentence). now rewrite <- !app_assoc.
Qed.

Lemma join_one_character (c : N) (pieces : list str) :
  forall first,
    join [c] (first :: pieces) = first ++ List.concat (map (cons c) pieces).
Proof.
  induction pieces as [|piece rest IH]; intros first.
  - cbn. now rewrite app_nil_r.
  - rewrite join_cons, IH. reflexivity.
Qed.

Lemma ink_join (sep : str) (pieces : list str) :
  ink sep = [] -> ink (join sep pieces) = ink (List.concat pieces).
Proof.
  intros Hsep. induction pieces as [|piece rest IH]; [reflexivity|].
  destruct rest as [|piece2 rest].
  - simpl. now rewrite app_nil_r.
  - rewrite join_cons, (ink_app piece), (ink_app sep), Hsep, IH.
    change (List.concat (piece :: piece2 :: rest))
      with (piece ++ List.concat (piece2 :: rest)).
    now rewrite (ink_app piece).
Qed.

Lemma filter_replace_from {f : N -> bool} (old new s : str) (skip : nat) :
  old <> [] -> filter f old = filter f new ->
  filter f (replace_from old new s skip) = filter f (skipn skip s).
Proof.
  intros Hold Hsame. revert skip; induction s as [|c s IH]; intros skip.
  - now destruct skip.
  - destruct skip as [|k]; [|cbn [replace_from skipn]; apply IH].
    cbn [replace_from skipn].
    destruct (startswith old (c :: s)) eqn:Hstart.
    + rewrite filter_app, IH, <- Hsame, <- filter_app. f_equal.
      destruct old as [|x old']; [congruence|].
      cbn [startswith] in Hstart.
      apply andb_true_iff in Hstart as [Hx Hrest].
      apply N.eqb_eq in Hx. subst x.
      replace (List.length (c :: old') - 1) with (List.length old')
        by (cbn [List.length]; lia).
      cbn [app]. now rewrite startswith_app.
    + cbn [filter]. now rewrite IH.
Qed.

Lemma ink_sentences (paragraph : str) :
  ink (List.concat (sentences_of paragraph)) = ink paragraph.
Proof.
  unfold sentences_of.
  rewrite <- (ink_join [124%N]) by reflexivity.
  rewrite join_split by discriminate.
  unfold replace, ink. rewrite filter_replace_from; [reflexivity | | ];
    [discriminate | reflexivity].
Qed.

Lemma ink_add_paragraph (chunks : list str) (paragraph : str) :
  ink (List.concat (add_paragraph chunks paragraph))
  = ink (List.concat chunks) ++ ink paragraph.
Proof.
  unfold add_paragraph. destruct (_ <=? 250).
  - rewrite concat_app, ink_app. cbn [List.concat]. now rewrite app_nil_r.
  - destruct (contains [bullet] paragraph).
    + assert (Hjoin : join [bullet] (split [bullet] paragraph) = paragraph)
        by (apply join_split; discriminate).
      destruct (split [bullet] paragraph) as [|first parts] eqn:Hsplit;
        [now apply split_from_nonempty in Hsplit|].
      rewrite ink_bullet_loop, <- Hjoin, join_one_character, ink_app.
      reflexivity.
    + rewrite ink_sentence_loop, ink_sentences. reflexivity.
Qed.

Lemma ink_fold_add_paragraph (paragraphs : list str) :
  forall chunks,
    ink (List.concat (fold_left add_paragraph paragraphs chunks))
    = ink (List.concat chunks) ++ ink (List.concat paragraphs).
Proof.
  induction paragraphs as [|paragraph rest IH]; intros chunks;
    cbn [fold_left List.concat].
  - now rewrite app_nil_r.
  - rewrite IH, ink_add_paragraph, ink_app. now rewrite <- app_assoc.
Qed.

Lemma ink_split_chunks (text : str) :
  ink (List.concat (split_chunks text)) = ink text.
Proof.
  unfold split_chunks. rewrite ink_fold_add_paragraph. cbn [List.concat app ink filter].
  rewrite <- (ink_join blank_line) by reflexivity.
  now rewrite join_split by discriminate.
Qed.

Lemma ink_nonblank (chunks : list str) :
  ink (List.concat (filter (fun chunk => truthy (strip chunk)) chunks))
  = ink (List.concat chunks).
Proof.
  induction chunks as [|chunk rest IH]; [reflexivity|].
  cbn [filter List.concat]. rewrite truthy_strip.
  destruct (whitespace_only chunk) eqn:Hblank; cbn [negb].
  - now rewrite ink_app, (ink_blank _ Hblank), IH.
  - cbn [List.concat]. now rewrite !ink_app, IH.
Qed.

(** X11. Chunking loses no character other than whitespace and vertical
    bars, and keeps the others in their order: the chunks of a text, put end
    to end, read as the text does once whitespace and bars are left out. *)
Theorem chunking_keeps_the_ink (text : str) :
  ink (List.concat (split_chunks text)) = ink text
  /\ ink (join blank_line (nonblank_chunks text)) = ink text.
Proof.
  split; [apply ink_split_chunks|].
  rewrite ink_join by reflexivity. unfold nonblank_chunks.
  rewrite ink_nonblank. apply ink_split_chunks.
Qed.

(** X12. When the service fails on every call, what the translator returns
    differs from its input at most in whitespace and vertical bars, whatever
    the length of the text and the language. *)
Theorem translate_down_keeps_the_ink
    (service : list request -> request -> reply)
    (text target_language : str) (w : world) :
  fails_always service ->
  exists out w',
    translate_text_smart service text target_language w = (Ret out, w')
    /\ ink out = ink text.
Proof.
  intros Hdown.
  destruct (translate_text_smart_down service Hdown text target_language w)
    as (w' & Hrun).
  exists (untranslated text target_language), w'.
  split; [exact Hrun|]. unfold untranslated.
  destruct (_ || _); [reflexivity|].
  destruct (_ <=? 250); [reflexivity|].
  rewrite ink_join by reflexivity. unfold nonblank_chunks.
  rewrite ink_nonblank. apply ink_split_chunks.
Qed.

Lemma translate_down_keeps_the_ink_witness :
  exists out w',
    translate_text_smart always_down long_bullet_paragraph hi fresh_world
    = (Ret out, w')
    /\ ink out = ink long_bullet_paragraph.
Proof.
  apply (translate_down_keeps_the_ink always_down long_bullet_paragraph hi
           fresh_world).
  exact always_down_fails.
Defined.


(** ** The requests the translator sends *)

Lemma lstrip_length (s : str) : List.length (lstrip s) <= List.length s.
Proof.
  induction s as [|c s IH]; [reflexivity|].
  cbn [lstrip]. destruct (isspace c); cbn [List.length]; lia.
Qed.

Lemma strip_length (s : str) : List.length (strip s) <= List.length s.
Proof.
  unfold strip, rstrip. rewrite length_rev.
  etransitivity; [apply lstrip_length|].
  rewrite length_rev. apply lstrip_length.
Qed.

Lemma lang_map_codes (target_language : str) :
  In (get lang_map target_language en) [hi; pa; kn; en].
Proof.
  unfold lang_map. cbn [get].
  destruct (str_eqb hi target_language); [now left|].
  destruct (str_eqb pa target_language); [right; now left|].
  destruct (str_eqb kn target_language); [do 2 right; now left|].
  destruct (str_eqb en target_language); do 3 right; now left.
Qed.


(** ** The canned responses and the limit of the service *)

Lemma requests_within_limit (target : str) (chunks : list str) :
  forallb (fun chunk => List.length (strip chunk) <=? 250) chunks = true ->
  Forall (fun r => List.length (q r) <= 250)
         (map (request_for target) chunks).
Proof.
  intros Hall. rewrite forallb_forall in Hall.
  apply Forall_forall. intros r Hr.
  apply in_map_iff in Hr as (chunk & <- & Hchunk).
  cbn [request_for q]. apply Nat.leb_le. now apply Hall.
Qed.

(** X14. The six fixed responses keep to the limit of the translation
    service: whatever the message, as long as its intent is not the default
    one, and whatever the language and the service, every request sent for
    the response carries at most 250 characters, and there are at most seven
    of them. *)
Theorem fixed_responses_fit_the_limit (lower : str -> str)
    (service : list request -> request -> reply)
    (user_message language : str) (w : world) :
  detect_intent_multilingual lower user_message <> Default ->
  exists new,
    calls (snd (get_ai_response lower service user_message language w))
    = calls w ++ new
    /\ Forall (fun r => List.length (q r) <= 250) new
    /\ List.length new <= 7.
Proof.
  intros Hintent.
  rewrite get_ai_response_is_translation, translate_text_smart_sends.
  eexists. split; [reflexivity|].
  destruct (str_eqb language en) eqn:Hen; cbn [orb];
    [split; [constructor | cbn; lia]|].
  destruct (detect_intent_multilingual lower user_message);
    try contradiction; cbn [english_response];
    match goal with
    | |- context [truthy (strip ?template)] =>
        change (negb (truthy (strip template))) with false;
        change (List.length template <=? 250)
          with (Nat.leb (List.length template) 250)
    end; cbv iota.
  all: split;
    [ apply requests_within_limit; vm_compute; reflexivity
    | rewrite length_map; vm_compute; lia ].
Qed.

Lemma fixed_responses_fit_the_limit_witness :
  exists new,
    calls (snd (get_ai_response ascii_lower always_down
                  (utf8 "interview tips") kn fresh_world))
    = new
    /\ Forall (fun r => List.length (q r) <= 250) new.
Proof.
  destruct (fixed_responses_fit_the_limit ascii_lower always_down
              (utf8 "interview tips") kn fresh_world)
    as (new & Hcalls & Hfit & _).
  - vm_compute. discriminate.
  - exists new. split; [exact Hcalls | exact Hfit].
Defined.

